(** * Event ingestion and metrics service (kucukaslan/clickhouse)

    A shallow embedding of the Go packages [domain], [validations],
    [database] and [services], followed by the properties of the
    ingestion pipeline and of the metric query planner.

    Conventions
    - a Go [string] is a Rocq [string] (a sequence of bytes);
    - [int64] and [int] values are [Z]; the code compares and prints
      them, and its one product, the cache duration in nanoseconds, is
      written with the wrap-around of [int64];
    - a nil-able slice or map is an [option]: [None] is Go's [nil];
    - a Go result pair [(v, err)] is a pair whose second component is an
      [option error], [None] being the nil error;
    - the cache and the store are external servers: every function that
      talks to one takes the server's state at the time of the call. *)

From Stdlib Require Import ZArith String List Ascii Bool Lia.
From Stdlib Require Import DecimalString DecimalZ DecimalPos.
From stdpp Require Import base gmap strings list.

Local Open Scope Z_scope.

(** ** Go runtime and standard library *)

(** Go [error] values.  The sentinels [ErrBufferFull] and [redis_Nil] are
    compared by identity in the source ([errors.Is]), so each one is a
    constructor of its own. *)
Inductive error : Type :=
  | errors_New (text : string)
  | fmt_Errorf_w (prefix : string) (err : error)
  | fiber_NewError (code : Z) (message : string)
  | redis_Nil
  | ErrBufferFull.

Fixpoint Error (e : error) : string :=
  match e with
  | errors_New text => text
  | fmt_Errorf_w prefix err => prefix +:+ Error err
  | fiber_NewError _ message => message
  | redis_Nil => "redis: nil"
  | ErrBufferFull => "event buffer is full"
  end.

Definition StatusBadRequest : Z := 400.

Module strconv.

(** [strconv.FormatInt(i, 10)]: sign and decimal digits, no padding. *)
Definition FormatInt (i : Z) : string :=
  NilZero.string_of_int (Z.to_int i).

(** The value a decimal rendering denotes (base 10 [ParseInt]). *)
Definition ParseInt (s : string) : option Z :=
  option_map Z.of_int (NilZero.int_of_string s).

End strconv.

Module gostrings.

Definition bytes (s : string) : list N :=
  map N_of_ascii (list_ascii_of_string s).

Definition of_bytes (l : list N) : string :=
  string_of_list_ascii (map ascii_of_N l).

(** The UTF-8 encodings of the code points for which [unicode.IsSpace]
    holds: tab, LF, VT, FF, CR, space, U+0085, U+00A0, U+1680,
    U+2000..U+200A, U+2028, U+2029, U+202F, U+205F, U+3000. *)
Definition spaceRunes : list (list N) :=
  [ [9]; [10]; [11]; [12]; [13]; [32];
    [194; 133]; [194; 160];
    [225; 154; 128];
    [226; 128; 128]; [226; 128; 129]; [226; 128; 130]; [226; 128; 131];
    [226; 128; 132]; [226; 128; 133]; [226; 128; 134]; [226; 128; 135];
    [226; 128; 136]; [226; 128; 137]; [226; 128; 138];
    [226; 128; 168]; [226; 128; 169]; [226; 128; 175];
    [226; 129; 159];
    [227; 128; 128] ]%N.

Fixpoint stripPrefix (p s : list N) : option (list N) :=
  match p, s with
  | [], _ => Some s
  | _ :: _, [] => None
  | a :: p', b :: s' => if N.eqb a b then stripPrefix p' s' else None
  end.

(** Drops one leading white-space rune, if there is one. *)
Fixpoint stripRune (runes : list (list N)) (s : list N) : option (list N) :=
  match runes with
  | [] => None
  | r :: rest =>
      match stripPrefix r s with
      | Some s' => Some s'
      | None => stripRune rest s
      end
  end.

Fixpoint trimLeft (fuel : nat) (runes : list (list N)) (s : list N) : list N :=
  match fuel with
  | O => s
  | S fuel' =>
      match stripRune runes s with
      | Some s' => trimLeft fuel' runes s'
      | None => s
      end
  end.

(** [strings.TrimSpace]: white-space runes are removed from the front,
    then from the back. *)
Definition TrimSpace (s : string) : string :=
  let front := trimLeft (String.length s) spaceRunes (bytes s) in
  let back := trimLeft (String.length s) (map (@rev N) spaceRunes) (rev front) in
  of_bytes (rev back).

End gostrings.

Module time.

(** A wall-clock instant, as [time.Unix(sec, nsec)] builds it. *)
Record Time : Type := Unix { sec : Z; nsec : Z }.

(** A [time.Duration] is an [int64] count of nanoseconds. *)
Definition Duration : Type := Z.

Definition Millisecond : Duration := 1000000.

Definition Second : Duration := 1000000000.

(** The value an [int64] holds after an operation whose exact result
    is [z]: the result modulo 2^64, in two's complement. *)
Definition int64 (z : Z) : Z := (z + 2 ^ 63) mod 2 ^ 64 - 2 ^ 63.

(** [d * e] on two durations. *)
Definition mul (d e : Duration) : Duration := int64 (d * e).

End time.

(** ** Package domain *)

Module domain.

(** A value of type [any] as [encoding/json] decodes it. *)
#[local] Set Warnings "-register-all".
Inductive any : Type :=
  | JNull
  | JBool (b : bool)
  | JNumber (literal : string)
  | JString (s : string)
  | JArray (elems : list any)
  | JObject (fields : list (string * any)).

Record EventRequest : Type := {
  EventName : string;
  Channel : string;
  CampaignID : string;
  UserID : string;
  Timestamp : Z;
  Tags : option (list string);
  Metadata : option (gmap string any)
}.

(** [event_name, user_id, timestamp, channel] as a unique identifier. *)
Definition GetUniqueKey (e : EventRequest) : string :=
  EventName e +:+ "|" +:+ UserID e +:+ "|"
    +:+ strconv.FormatInt (Timestamp e) +:+ "|" +:+ Channel e.

Record MetricRequest : Type := {
  mr_EventName : option string;
  mr_From : option Z;
  mr_To : option Z;
  mr_GroupBy : option string
}.

Record BulkEventRequest : Type := { Events : list EventRequest }.

Record EventResponse : Type := {
  er_Success : bool;
  er_Message : string
}.

Record MetricResult : Type := {
  Bucket : string;
  TotalEvents : Z;
  UniqueUsers : Z
}.

Record MetricResponse : Type := {
  mresp_Success : bool;
  mresp_Message : string;
  mresp_Metrics : option (list MetricResult)
}.

Record BulkEventResponse : Type := {
  Success : bool;
  Message : string;
  TotalCount : Z;
  SuccessCount : Z;
  FailureCount : Z
}.

End domain.

(** ** Package validations *)

Module validations.
Import domain.

Definition blank (s : string) : bool :=
  String.eqb (gostrings.TrimSpace s) "".

(** [for _, x := range xs { if strings.TrimSpace(x) == "" { return err } }]:
    the loop returns at the first blank element. *)
Fixpoint rangeBlank (xs : list string) (err : error) : option error :=
  match xs with
  | [] => None
  | x :: rest => if blank x then Some err else rangeBlank rest err
  end.

(** [now] is the reading of [time.Now().UTC().Unix()]. *)
Definition ValidateEventRequest (now : Z) (request : EventRequest) : option error :=
  if blank (EventName request) then
    Some (fiber_NewError StatusBadRequest "event_name is required")
  else if blank (Channel request) then
    Some (fiber_NewError StatusBadRequest "channel is required")
  else if Timestamp request <=? 0 then
    Some (fiber_NewError StatusBadRequest
            "timestamp is required and must be a positive integer")
  else if Timestamp request >? now then
    Some (fiber_NewError StatusBadRequest "timestamp cannot be in the future")
  else if String.eqb (UserID request) "" then
    Some (fiber_NewError StatusBadRequest "user_id is required")
  else if String.eqb (CampaignID request) "" then
    Some (fiber_NewError StatusBadRequest "campaign_id is required")
  else
    match Tags request with
    | None => Some (fiber_NewError StatusBadRequest "tags is required")
    | Some tags =>
        match rangeBlank tags
                (fiber_NewError StatusBadRequest "tags cannot be empty") with
        | Some err => Some err
        | None =>
            match Metadata request with
            | None => Some (fiber_NewError StatusBadRequest "metadata is required")
            | Some metadata =>
                (* the iteration order of a Go map is unspecified; the
                   error is the same whichever blank key is met first *)
                rangeBlank (map fst (map_to_list metadata))
                  (fiber_NewError StatusBadRequest "metadata keys cannot be empty")
            end
        end
    end.

Definition MaxBulkEventCount : Z := 10000.

(** [nowFrom] and [nowTo] are the two readings of
    [time.Now().UTC().Unix()], taken when [from] and when [to] is
    checked. *)
Definition ValidateMetricRequest (nowFrom nowTo : Z) (request : MetricRequest)
  : option error :=
  let checkFrom :=
    match mr_From request with
    | Some from =>
        if from <=? 0 then
          Some (fiber_NewError StatusBadRequest "from must be a positive integer")
        else if from >? nowFrom then
          Some (fiber_NewError StatusBadRequest "from cannot be in the future")
        else None
    | None => None
    end in
  let checkTo :=
    match mr_To request with
    | Some to =>
        if to <=? 0 then
          Some (fiber_NewError StatusBadRequest "to must be a positive integer")
        else if to >? nowTo then
          Some (fiber_NewError StatusBadRequest "to cannot be in the future")
        else None
    | None => None
    end in
  let checkOrder :=
    match mr_From request, mr_To request with
    | Some from, Some to =>
        if from >? to then
          Some (fiber_NewError StatusBadRequest "from cannot be greater than to")
        else None
    | _, _ => None
    end in
  let checkGroupBy :=
    match mr_GroupBy request with
    | Some g =>
        if blank g then
          Some (fiber_NewError StatusBadRequest "group_by cannot be empty if provided")
        else None
    | None => None
    end in
  let checkEventName :=
    match mr_EventName request with
    | Some name =>
        if blank name then
          Some (fiber_NewError StatusBadRequest "event_name cannot be empty if provided")
        else None
    | None => None
    end in
  match checkFrom with
  | Some err => Some err
  | None =>
      match checkTo with
      | Some err => Some err
      | None =>
          match checkOrder with
          | Some err => Some err
          | None =>
              match checkGroupBy with
              | Some err => Some err
              | None => checkEventName
              end
          end
      end
  end.

(** The loop of [ValidateBulkEventRequest] over the events, from index
    [i] on; [now k] is the clock's reading when event [k] is checked. *)
Fixpoint rangeValidate (now : nat -> Z) (i : nat) (events : list EventRequest)
  : option error :=
  match events with
  | [] => None
  | event :: rest =>
      match ValidateEventRequest (now i) event with
      | Some err =>
          Some (fiber_NewError StatusBadRequest
                  ("validation failed for event at index "
                     +:+ strconv.FormatInt (Z.of_nat i) +:+ ": " +:+ Error err))
      | None => rangeValidate now (S i) rest
      end
  end.

(** [request] is the pointer the function receives ([None]: nil), and
    its content the [Events] slice as decoded ([None]: the nil slice of
    a body without an events array). *)
Definition ValidateBulkEventRequest (now : nat -> Z)
    (request : option (option (list EventRequest))) : option error :=
  match request with
  | None => Some (fiber_NewError StatusBadRequest "bulk event request is required")
  | Some None => Some (fiber_NewError StatusBadRequest "events array is required")
  | Some (Some events) =>
      if (length events =? 0)%nat then
        Some (fiber_NewError StatusBadRequest "events array cannot be empty")
      else if Z.of_nat (length events) >? MaxBulkEventCount then
        Some (fiber_NewError StatusBadRequest
                "events array exceeds maximum allowed size")
      else rangeValidate now 0 events
  end.

End validations.

(** ** Package database *)

Module database.
Import domain.

#[global] Instance error_eq_dec : EqDecision error.
Proof. solve_decision. Defined.

(** [errors.Is(err, target)]: [err] or an error it wraps is [target]. *)
Fixpoint errors_Is_chain (e target : error) : bool :=
  bool_decide (e = target)
  || match e with
     | fmt_Errorf_w _ inner => errors_Is_chain inner target
     | _ => false
     end.

Definition errors_Is (err : option error) (target : error) : bool :=
  match err with
  | None => false
  | Some e => errors_Is_chain e target
  end.

(** *** The cache (redis.go) *)

(** The cache server as a client sees it at the time of a command:
    reachable, holding string values under string keys, or failing
    every command with [err].  Expiry of a key is a change of the
    server's state between two commands. *)
Inductive redisServer : Type :=
  | redisUp (keys : gmap string string)
  | redisDown (err : error).

Record ClickHouseRedis : Type := {
  Client : redisServer;
  expirationMilliseconds : Z
}.

Definition RedisKeyPrefix : string := "clickhouse_event:".

(** [r.Get(ctx, key).Result()]: a missing key is the error [redis.Nil]. *)
Definition Get (r : ClickHouseRedis) (key : string) : string * option error :=
  match Client r with
  | redisDown err => ("", Some err)
  | redisUp keys =>
      match keys !! key with
      | Some v => (v, None)
      | None => ("", Some redis_Nil)
      end
  end.

(** [r.MGet(ctx, keys...).Result()]: one reply per key, nil for a
    missing key.  The server refuses an [MGET] without keys. *)
Definition MGet (r : ClickHouseRedis) (keys : list string)
  : list (option string) * option error :=
  match Client r with
  | redisDown err => ([], Some err)
  | redisUp m =>
      match keys with
      | [] =>
          ([], Some (errors_New "ERR wrong number of arguments for 'mget' command"))
      | _ :: _ => (map (fun k => m !! k) keys, None)
      end
  end.

(** [time.Duration(r.expirationMilliseconds) * time.Millisecond], an
    [int64] product: above 9223372036854 ms it wraps around. *)
Definition getExpirationDuration (r : ClickHouseRedis) : time.Duration :=
  if expirationMilliseconds r <=? 0 then 0
  else time.mul (expirationMilliseconds r) time.Millisecond.

(** The client sends the expiry of [SetEx] in whole seconds: a positive
    duration below one second is sent as 1, any other duration is
    divided by [time.Second], rounding toward zero. *)
Definition formatSec (dur : time.Duration) : Z :=
  if (0 <? dur) && (dur <? time.Second) then 1 else Z.quot dur time.Second.

(** The server's reply to [SETEX] with an expiry that is not positive. *)
Definition invalidExpire : error :=
  errors_New "ERR invalid expire time in 'setex' command".

(** [SETEX key seconds value] on the server: the key is set when the
    expiry is positive, and the command is refused, the keys staying as
    they are, otherwise.  (The server also refuses an expiry above
    2^63 / 1000 seconds, which an [int64] count of nanoseconds divided
    by 10^9 does not reach.) *)
Definition SETEX (keys : gmap string string) (key : string) (seconds : Z)
    (value : string) : gmap string string * option error :=
  if seconds <=? 0 then (keys, Some invalidExpire)
  else (<[key := value]> keys, None).

(** A pipeline: the [SetEx] commands queued so far, each with its key,
    value and expiration. *)
Definition Pipeliner : Type := list (string * string * time.Duration).

Definition pipe_SetEx (pipe : Pipeliner) (key value : string)
    (expiration : time.Duration) : Pipeliner :=
  pipe ++ [(key, value, expiration)].

Definition firstErr (err next : option error) : option error :=
  match err with
  | Some _ => err
  | None => next
  end.

(** [pipe.Exec(ctx)]: an empty pipeline sends nothing and returns no
    error; otherwise every queued command is sent, the server answers
    each one in order, and the error returned is the first command's
    that failed.  The result is the server's state afterwards and that
    error. *)
Definition pipe_Exec (r : ClickHouseRedis) (pipe : Pipeliner)
  : redisServer * option error :=
  match pipe with
  | [] => (Client r, None)
  | _ :: _ =>
      match Client r with
      | redisDown err => (redisDown err, Some err)
      | redisUp m =>
          let '(m', err) :=
            fold_left
              (fun '(acc, err) '(key, value, expiration) =>
                 let '(acc', e) := SETEX acc key (formatSec expiration) value in
                 (acc', firstErr err e))
              pipe (m, None) in
          (redisUp m', err)
      end
  end.

Definition IsEventProcessed (r : ClickHouseRedis) (request : EventRequest)
  : bool * option error :=
  let key := RedisKeyPrefix +:+ GetUniqueKey request in
  let '(result, err) := Get r key in
  if errors_Is err redis_Nil then (false, None)
  else
    match err with
    | Some e => (false, Some e)
    | None => (String.eqb result "1", None)
    end.

(** The pipeline of [SetEx] commands, one for each request, and its
    [Exec]: the server's state afterwards and the error of [Exec]. *)
Definition SetMultipleEventsProcessed (r : ClickHouseRedis)
    (requests : list EventRequest) : redisServer * option error :=
  let pipe :=
    fold_left
      (fun pipe request =>
         let key := RedisKeyPrefix +:+ GetUniqueKey request in
         pipe_SetEx pipe key "1" (getExpirationDuration r))
      requests [] in
  pipe_Exec r pipe.

(** The loop over the replies of [MGet]:
    [for i, result := range results { ... requests[i] ... }].
    [MGet] answers with one reply per key, so the replies never outnumber
    the requests. *)
Fixpoint rangeResults (requests : list EventRequest)
    (results : list (option string)) (processedMap : gmap string bool)
  : gmap string bool :=
  match results, requests with
  | [], _ => processedMap
  | _ :: _, [] => processedMap
  | result :: results', request :: requests' =>
      rangeResults requests' results'
        match result with
        | None => <[GetUniqueKey request := false]> processedMap
        | Some str =>
            if String.eqb str "1"
            then <[GetUniqueKey request := true]> processedMap
            else processedMap
        end
  end.

Definition AreEventsProcessed (r : ClickHouseRedis)
    (requests : list EventRequest) : option (gmap string bool) * option error :=
  let keys := map (fun request => RedisKeyPrefix +:+ GetUniqueKey request) requests in
  let '(results, err) := MGet r keys in
  match err with
  | Some e => (None, Some e)
  | None => (Some (rangeResults requests results ∅), None)
  end.

(** *** The store (clickhouse.go) *)

(** Events in columnar format for batch inserts. *)
Record EventColumnar : Type := {
  col_EventName : list string;
  col_Channel : list string;
  col_CampaignID : list string;
  col_UserID : list string;
  col_Timestamp : list time.Time;
  col_Tags : list (option (list string));
  col_Metadata : list string;
  col_IngestedAt : list time.Time
}.

(** The argument of a [?] placeholder: [ch.Safe] text is inlined as it
    is, every other argument is bound as a value. *)
Inductive arg : Type :=
  | ch_Safe (text : string)
  | argString (s : string)
  | argTime (t : time.Time).

Record QueryWithArgs : Type := {
  Query : string;
  Args : list arg
}.

(** A [ch.SelectQuery] under construction: each builder method appends
    to its own clause. *)
Record SelectQuery : Type := {
  table : list QueryWithArgs;
  columns : list QueryWithArgs;
  where_ : list QueryWithArgs;
  group : list QueryWithArgs;
  order : list QueryWithArgs
}.

Definition NewSelect : SelectQuery :=
  {| table := []; columns := []; where_ := []; group := []; order := [] |}.

Definition TableExpr (query : string) (args : list arg) (q : SelectQuery) :=
  {| table := table q ++ [{| Query := query; Args := args |}];
     columns := columns q; where_ := where_ q; group := group q; order := order q |}.

Definition ColumnExpr (query : string) (args : list arg) (q : SelectQuery) :=
  {| table := table q;
     columns := columns q ++ [{| Query := query; Args := args |}];
     where_ := where_ q; group := group q; order := order q |}.

Definition Where (query : string) (args : list arg) (q : SelectQuery) :=
  {| table := table q; columns := columns q;
     where_ := where_ q ++ [{| Query := query; Args := args |}];
     group := group q; order := order q |}.

Definition GroupExpr (query : string) (args : list arg) (q : SelectQuery) :=
  {| table := table q; columns := columns q; where_ := where_ q;
     group := group q ++ [{| Query := query; Args := args |}];
     order := order q |}.

Definition OrderExpr (query : string) (args : list arg) (q : SelectQuery) :=
  {| table := table q; columns := columns q; where_ := where_ q;
     group := group q;
     order := order q ++ [{| Query := query; Args := args |}] |}.

(** The rows of a metric query, as scanned. *)
Record MetricResult : Type := {
  Bucket : string;
  TotalEvents : Z;
  UniqueUsers : Z
}.

(** An open connection to the store: what an insert of a columnar model
    and what the scan of a select answer. *)
Record chDB : Type := {
  Exec : EventColumnar -> option error;
  Scan : SelectQuery -> list MetricResult * option error
}.

(** [type ClickHouseDB struct { *ch.DB }]; [None] is the nil pointer. *)
Record ClickHouseDB : Type := { DB : option chDB }.

Section Store.

(** [json.Marshal] on a metadata map. *)
Variable json_Marshal : gmap string any -> string * option error.

Definition noColumns : EventColumnar :=
  {| col_EventName := []; col_Channel := []; col_CampaignID := [];
     col_UserID := []; col_Timestamp := []; col_Tags := [];
     col_Metadata := []; col_IngestedAt := [] |}.

(** The loop of [SaveEvents] that extracts the columns. *)
Fixpoint rangeRequests (now : time.Time) (requests : list EventRequest)
    (cols : EventColumnar) : EventColumnar + error :=
  match requests with
  | [] => inl cols
  | request :: rest =>
      let serialized :=
        match Metadata request with
        | Some metadata =>
            if (0 <? Z.of_nat (size metadata)) then
              match json_Marshal metadata with
              | (_, Some err) =>
                  inr (fmt_Errorf_w "failed to serialize metadata: " err)
              | (metadataBytes, None) => inl metadataBytes
              end
            else inl ""%string
        | None => inl ""%string
        end in
      match serialized with
      | inr err => inr err
      | inl metadataJSON =>
          let eventTime := time.Unix (Timestamp request) 0 in
          rangeRequests now rest
            {| col_EventName := col_EventName cols ++ [EventName request];
               col_Channel := col_Channel cols ++ [Channel request];
               col_CampaignID := col_CampaignID cols ++ [CampaignID request];
               col_UserID := col_UserID cols ++ [UserID request];
               col_Timestamp := col_Timestamp cols ++ [eventTime];
               col_Tags := col_Tags cols ++ [Tags request];
               col_Metadata := col_Metadata cols ++ [metadataJSON];
               col_IngestedAt := col_IngestedAt cols ++ [now] |}
      end
  end.

(** [now] is the reading of [time.Now()]. *)
Definition SaveEvents (now : time.Time) (c : ClickHouseDB)
    (requests : list EventRequest) : option error :=
  match DB c with
  | None => Some (errors_New "database connection is nil")
  | Some db =>
      if (length requests =? 0)%nat then
        Some (errors_New "no events to insert")
      else
        match rangeRequests now requests noColumns with
        | inr err => Some err
        | inl columnarModel =>
            match Exec db columnarModel with
            | Some err =>
                Some (fmt_Errorf_w "failed to columnar insert events: " err)
            | None => None
            end
        end
  end.

End Store.

(** The allowlist switch of [GetMetrics]. *)
Definition groupExprOf (GroupBy : option string) : string :=
  match GroupBy with
  | Some g =>
      if String.eqb g "hour" then "toString(toStartOfHour(timestamp))"
      else if String.eqb g "day" then "toString(toStartOfDay(timestamp))"
      else if String.eqb g "week" then "toString(toStartOfWeek(timestamp))"
      else if String.eqb g "month" then "toString(toStartOfMonth(timestamp))"
      else if String.eqb g "year" then "toString(toStartOfYear(timestamp))"
      else if String.eqb g "channel" then "channel"
      else if String.eqb g "campaign_id" then "campaign_id"
      else if String.eqb g "user_id" then "user_id"
      else if String.eqb g "event_name" then "event_name"
      else ""
  | None => ""
  end.

(** The query [GetMetrics] has built when it calls [Scan]. *)
Definition metricsQuery (request : MetricRequest) : SelectQuery :=
  let groupExpr := groupExprOf (mr_GroupBy request) in
  let query := TableExpr "events FINAL" [] NewSelect in
  let query :=
    if negb (String.eqb groupExpr "")
    then ColumnExpr "? AS bucket" [ch_Safe groupExpr] query
    else ColumnExpr "'total' AS bucket" [] query in
  let query := ColumnExpr "count() AS total_events" [] query in
  let query := ColumnExpr "uniqExact(user_id) AS unique_users" [] query in
  let query :=
    match mr_EventName request with
    | Some name =>
        if negb (String.eqb name "")
        then Where "event_name = ?" [argString name] query
        else query
    | None => query
    end in
  let query :=
    match mr_From request with
    | Some from => Where "timestamp >= ?" [argTime (time.Unix from 0)] query
    | None => query
    end in
  let query :=
    match mr_To request with
    | Some to => Where "timestamp <= ?" [argTime (time.Unix to 0)] query
    | None => query
    end in
  if negb (String.eqb groupExpr "")
  then OrderExpr "bucket ASC" [] (GroupExpr groupExpr [] query)
  else query.

(** [GetMetrics] on an open connection.  (With a nil connection the
    method dereferences nil; [NewEventService] refuses such a handle.) *)
Definition GetMetrics (db : chDB) (request : MetricRequest)
  : option (list MetricResult) * option error :=
  match Scan db (metricsQuery request) with
  | (_, Some err) => (None, Some err)
  | (results, None) => (Some results, None)
  end.

End database.

(** ** Package services *)

Module services.
Import domain database.

(** What a call reaches outside the process: the cache and the store as
    they are when the call is made, and the reading of the clock. *)
Record Env : Type := {
  env_redis : ClickHouseRedis;
  env_db : ClickHouseDB;
  env_now : time.Time
}.

(** The observable actions of the ingestion paths, in program order:
    a call of the columnar writer with its outcome, and the goroutine
    spawned to mark events as processed.  Log lines are not recorded. *)
Inductive effect : Type :=
  | callSaveEvents (requests : list EventRequest) (result : option error)
  | goSetMultipleEventsProcessed (requests : list EventRequest).

(** *** The intake channel *)

(** [make(chan domain.EventRequest, capacity)].
    [chan_buf] holds the values sent and not yet received, oldest first;
    [chan_recv] tells whether the worker is blocked in its [select],
    ready to receive.  A buffered channel accepts a send while its
    buffer has room; an unbuffered one (capacity 0) accepts a send only
    when the receiver is ready, and the value sent then waits in
    [chan_buf] for the woken receiver to pick it up. *)
Record Chan : Type := {
  chan_cap : nat;
  chan_buf : list EventRequest;
  chan_recv : bool
}.

(** Whether the case [ch <- v] of a [select] can proceed. *)
Definition sendReady (ch : Chan) : bool :=
  if (chan_cap ch =? 0)%nat
  then chan_recv ch && (length (chan_buf ch) =? 0)%nat
  else (length (chan_buf ch) <? chan_cap ch)%nat.

Definition send (v : EventRequest) (ch : Chan) : Chan :=
  {| chan_cap := chan_cap ch;
     chan_buf := chan_buf ch ++ [v];
     chan_recv := if (chan_cap ch =? 0)%nat then false else chan_recv ch |}.

(** The worker leaves its [select] through some case: it no longer
    waits to receive. *)
Definition leave (ch : Chan) : Chan :=
  {| chan_cap := chan_cap ch; chan_buf := chan_buf ch; chan_recv := false |}.

(** The worker finds no case ready and blocks in its [select]. *)
Definition park (ch : Chan) : Chan :=
  {| chan_cap := chan_cap ch; chan_buf := chan_buf ch; chan_recv := true |}.

(** The case [v := <-ch] of a [select]: ready when a value is waiting. *)
Definition recv (ch : Chan) : option (EventRequest * Chan) :=
  match chan_buf ch with
  | [] => None
  | v :: rest =>
      Some (v, {| chan_cap := chan_cap ch; chan_buf := rest; chan_recv := false |})
  end.

(** *** EventBatcher (batcher.go) *)

Record EventBatcher : Type := {
  eventChan : Chan;
  batchSize : Z;
  flushInterval : Z;
  isRunning : bool;
  currentBatch : list EventRequest
}.

Definition setChan (ch : Chan) (b : EventBatcher) : EventBatcher :=
  {| eventChan := ch; batchSize := batchSize b; flushInterval := flushInterval b;
     isRunning := isRunning b; currentBatch := currentBatch b |}.

Definition setBatch (batch : list EventRequest) (b : EventBatcher) : EventBatcher :=
  {| eventChan := eventChan b; batchSize := batchSize b;
     flushInterval := flushInterval b; isRunning := isRunning b;
     currentBatch := batch |}.

(** [make] panics on a negative size: [None]. *)
Definition NewEventBatcher (capacity batchSize flushIntervalSeconds : Z)
  : option EventBatcher :=
  if (capacity <? 0) || (batchSize <? 0) then None
  else Some {| eventChan := {| chan_cap := Z.to_nat capacity;
                               chan_buf := []; chan_recv := false |};
               batchSize := batchSize;
               flushInterval := flushIntervalSeconds;
               isRunning := false;
               currentBatch := [] |}.

Definition Start (b : EventBatcher) : EventBatcher :=
  if isRunning b then b
  else {| eventChan := eventChan b; batchSize := batchSize b;
          flushInterval := flushInterval b; isRunning := true;
          currentBatch := currentBatch b |}.

(** [select { case b.eventChan <- event: return nil
             default: return ErrBufferFull }] *)
Definition Enqueue (event : EventRequest) (b : EventBatcher)
  : EventBatcher * option error :=
  if sendReady (eventChan b)
  then (setChan (send event (eventChan b)) b, None)
  else (b, Some ErrBufferFull).

(** [processed, exists := maps[key]] *)
Definition index (maps : option (gmap string bool)) (key : string) : bool * bool :=
  match maps with
  | None => (false, false)
  | Some m =>
      match m !! key with
      | Some processed => (processed, true)
      | None => (false, false)
      end
  end.

(** The loop of [filterProcessedEvents] over the events. *)
Fixpoint rangeEvents (maps : option (gmap string bool))
    (events unprocessedEvents : list EventRequest) : list EventRequest :=
  match events with
  | [] => unprocessedEvents
  | event :: rest =>
      let '(processed, exists_) := index maps (GetUniqueKey event) in
      rangeEvents maps rest
        (if negb exists_ || negb processed
         then unprocessedEvents ++ [event]
         else unprocessedEvents)
  end.

Module EventBatcher_.

Definition filterProcessedEvents (redisRepo : ClickHouseRedis)
    (events : list EventRequest) : list EventRequest :=
  let unprocessedEvents := [] in
  let '(maps, err) := AreEventsProcessed redisRepo events in
  match err with
  | Some _ => events
  | None => rangeEvents maps events unprocessedEvents
  end.

End EventBatcher_.

Module eventService_.

Definition filterProcessedEvents (redisRepo : ClickHouseRedis)
    (events : list EventRequest) : list EventRequest :=
  let unprocessedEvents := [] in
  let '(maps, err) := AreEventsProcessed redisRepo events in
  match err with
  | Some _ => events
  | None => rangeEvents maps events unprocessedEvents
  end.

End eventService_.

Section Pipeline.

Variable json_Marshal : gmap string any -> string * option error.

(** [flushBatch]: the batcher afterwards and the actions performed. *)
Definition flushBatch (env : Env) (b : EventBatcher)
  : EventBatcher * list effect :=
  if (length (currentBatch b) =? 0)%nat then (b, [])
  else
    let batch := currentBatch b in
    let b := setBatch [] b in
    let unprocessedEvents :=
      EventBatcher_.filterProcessedEvents (env_redis env) batch in
    if (length unprocessedEvents =? 0)%nat then (b, [])
    else
      match SaveEvents json_Marshal (env_now env) (env_db env)
              unprocessedEvents with
      | Some err => (b, [callSaveEvents unprocessedEvents (Some err)])
      | None =>
          (b, [callSaveEvents unprocessedEvents None;
               goSetMultipleEventsProcessed unprocessedEvents])
      end.

(** The drain loop of [flushRemaining]: receive until the channel has
    nothing left. *)
Fixpoint drain (buf batch : list EventRequest) (drained : nat)
  : list EventRequest * nat :=
  match buf with
  | [] => (batch, drained)
  | event :: rest => drain rest (batch ++ [event]) (S drained)
  end.

(** [flushRemaining]; [env1] and [env2] are the surroundings of its
    first and of its second flush. *)
Definition flushRemaining (env1 env2 : Env) (b : EventBatcher)
  : EventBatcher * list effect :=
  let remaining := length (currentBatch b) in
  let '(b, fx1) :=
    if (0 <? remaining)%nat then flushBatch env1 b else (b, []) in
  let '(batch, drained) := drain (chan_buf (eventChan b)) (currentBatch b) 0 in
  let b :=
    setBatch batch
      (setChan {| chan_cap := chan_cap (eventChan b); chan_buf := [];
                  chan_recv := chan_recv (eventChan b) |} b) in
  if (0 <? drained)%nat
  then let '(b, fx2) := flushBatch env2 b in (b, fx1 ++ fx2)
  else (b, fx1).

(** The case of the worker's [select] that fires; [blocked] when
    none is ready and the worker waits.  A case carries the
    surroundings of the flushes it may lead to. *)
Inductive selectCase : Type :=
  | ctxDone (env1 env2 : Env)
  | recvEvent (env : Env)
  | tickerC (env : Env)
  | blocked.

(** One turn of the worker's loop: the batcher afterwards, the actions
    performed, and whether the worker has returned. *)
Definition workerTurn (sc : selectCase) (b : EventBatcher)
  : EventBatcher * list effect * bool :=
  match sc with
  | ctxDone env1 env2 =>
      let b := setChan (leave (eventChan b)) b in
      let '(b, fx) := flushRemaining env1 env2 b in (b, fx, true)
  | recvEvent env =>
      match recv (eventChan b) with
      | None => (b, [], false)
      | Some (event, ch) =>
          let b := setBatch (currentBatch b ++ [event]) (setChan ch b) in
          let shouldFlush := Z.of_nat (length (currentBatch b)) >=? batchSize b in
          if shouldFlush
          then let '(b, fx) := flushBatch env b in (b, fx, false)
          else (b, [], false)
      end
  | tickerC env =>
      let b := setChan (leave (eventChan b)) b in
      let hasEvents := (0 <? length (currentBatch b))%nat in
      if hasEvents
      then let '(b, fx) := flushBatch env b in (b, fx, false)
      else (b, [], false)
  | blocked => (setChan (park (eventChan b)) b, [], false)
  end.

(** The worker's [for { select { ... } }] along a schedule of cases;
    it returns at [ctxDone]. *)
Fixpoint worker (schedule : list selectCase) (b : EventBatcher)
  : EventBatcher * list effect * bool :=
  match schedule with
  | [] => (b, [], false)
  | sc :: rest =>
      match workerTurn sc b with
      | (b, fx, true) => (b, fx, true)
      | (b, fx, false) =>
          let '(b, fx', returned) := worker rest b in
          (b, fx ++ fx', returned)
      end
  end.

(** *** eventService (event.go) *)

Definition PostEvents (redisRepo : ClickHouseRedis) (batcher : EventBatcher)
    (eventData : EventRequest)
  : EventResponse * option error * EventBatcher :=
  let '(isProcessed, err) := IsEventProcessed redisRepo eventData in
  if isProcessed then
    ({| er_Success := true; er_Message := "Event already processed" |},
     None, batcher)
  else
    match Enqueue eventData batcher with
    | (batcher, Some err) =>
        ({| er_Success := false;
            er_Message := "Event buffer is full, please try again later" |},
         Some err, batcher)
    | (batcher, None) =>
        ({| er_Success := true; er_Message := "Event posted successfully" |},
         None, batcher)
    end.

Definition PostEventsBulk (env : Env) (bulkData : BulkEventRequest)
  : BulkEventResponse * option error * list effect :=
  let totalCount := Z.of_nat (length (Events bulkData)) in
  let filteredEvents :=
    eventService_.filterProcessedEvents (env_redis env) (Events bulkData) in
  match SaveEvents json_Marshal (env_now env) (env_db env) filteredEvents with
  | Some err =>
      ({| Success := false;
          Message := "Failed to save bulk events: " +:+ Error err;
          TotalCount := totalCount;
          SuccessCount := 0;
          FailureCount := totalCount |},
       Some err,
       [callSaveEvents filteredEvents (Some err)])
  | None =>
      ({| Success := true;
          Message := "Bulk events posted successfully";
          TotalCount := totalCount;
          SuccessCount := totalCount;
          FailureCount := 0 |},
       None,
       [callSaveEvents filteredEvents None;
        goSetMultipleEventsProcessed filteredEvents])
  end.

End Pipeline.

Definition GetMetrics (db : chDB) (metricRequest : MetricRequest)
  : MetricResponse * option error :=
  match database.GetMetrics db metricRequest with
  | (_, Some err) =>
      ({| mresp_Success := false;
          mresp_Message := "Failed to retrieve metrics: " +:+ Error err;
          mresp_Metrics := None |},
       Some err)
  | (metrics, None) =>
      ({| mresp_Success := true;
          mresp_Message := "Metrics retrieved successfully";
          mresp_Metrics :=
            Some (map (fun m =>
                         {| domain.Bucket := database.Bucket m;
                            domain.TotalEvents := database.TotalEvents m;
                            domain.UniqueUsers := database.UniqueUsers m |})
                    (default [] metrics)) |},
       None)
  end.

End services.

(** ** Package api *)

Module api.
Import domain database services validations.

Definition StatusOK : Z := 200.
Definition StatusInternalServerError : Z := 500.
Definition StatusServiceUnavailable : Z := 503.

(** [PostEvent]: the status and the body written, and the batcher
    afterwards.  [parsed] is what [ctx.BodyParser(&req)] leaves in [req]
    and the error it returns; [now] the clock's reading during
    validation. *)
Definition PostEvent (now : Z) (redisRepo : ClickHouseRedis)
    (batcher : EventBatcher) (parsed : EventRequest * option error)
  : Z * EventResponse * EventBatcher :=
  let '(req, perr) := parsed in
  match perr with
  | Some err =>
      (StatusBadRequest,
       {| er_Success := false;
          er_Message := "Invalid request body: " +:+ Error err |},
       batcher)
  | None =>
      match ValidateEventRequest now req with
      | Some err =>
          (StatusBadRequest,
           {| er_Success := false;
              er_Message := "Validation failed: " +:+ Error err |},
           batcher)
      | None =>
          match PostEvents redisRepo batcher req with
          | (resp, Some err, batcher) =>
              if errors_Is (Some err) ErrBufferFull then
                (StatusServiceUnavailable,
                 {| er_Success := false;
                    er_Message :=
                      "Service temporarily unavailable, please try again later" |},
                 batcher)
              else
                (StatusInternalServerError,
                 {| er_Success := false;
                    er_Message := "Internal server error: " +:+ Error err |},
                 batcher)
          | (resp, None, batcher) => (StatusOK, resp, batcher)
          end
      end
  end.

Section Handlers.

Variable json_Marshal : gmap string any -> string * option error.

(** [strconv.ParseInt(s, 10, 64)]. *)
Variable ParseInt : string -> Z * option error.

(** [PostEventsBulk]: the status and the body written, and the actions
    of the facade.  [parsed] is the events slice [ctx.BodyParser(&req)]
    leaves in [req.Events] and the error it returns. *)
Definition PostEventsBulk (now : nat -> Z) (env : Env)
    (parsed : option (list EventRequest) * option error)
  : Z * BulkEventResponse * list effect :=
  let '(events, perr) := parsed in
  match perr with
  | Some err =>
      (StatusBadRequest,
       {| Success := false;
          Message := "Invalid request body: " +:+ Error err;
          TotalCount := 0; SuccessCount := 0; FailureCount := 0 |},
       [])
  | None =>
      let len := Z.of_nat (length (default [] events)) in
      match ValidateBulkEventRequest now (Some events) with
      | Some err =>
          (StatusBadRequest,
           {| Success := false;
              Message := "Validation failed: " +:+ Error err;
              TotalCount := len; SuccessCount := 0; FailureCount := len |},
           [])
      | None =>
          match services.PostEventsBulk json_Marshal env
                  {| Events := default [] events |} with
          | (resp, Some err, fx) =>
              (StatusInternalServerError,
               {| Success := false;
                  Message := "Internal server error: " +:+ Error err;
                  TotalCount := TotalCount resp;
                  SuccessCount := SuccessCount resp;
                  FailureCount := FailureCount resp |},
               fx)
          | (resp, None, fx) => (StatusOK, resp, fx)
          end
      end
  end.

(** [GetMetrics]: the status and the body written.  [query key] is
    [ctx.Query(key)], the empty string for a parameter that is not
    given. *)
Definition GetMetrics (nowFrom nowTo : Z) (db : chDB) (query : string -> string)
  : Z * MetricResponse :=
  let eventName := query "event_name" in
  let req_EventName := if negb (String.eqb eventName "") then Some eventName else None in
  let fromStr := query "from" in
  let parsedFrom :=
    if negb (String.eqb fromStr "") then
      match ParseInt fromStr with
      | (_, Some err) => inr err
      | (from, None) => inl (Some from)
      end
    else inl None in
  match parsedFrom with
  | inr err =>
      (StatusBadRequest,
       {| mresp_Success := false;
          mresp_Message := "Invalid 'from' parameter: " +:+ Error err;
          mresp_Metrics := None |})
  | inl req_From =>
      let toStr := query "to" in
      let parsedTo :=
        if negb (String.eqb toStr "") then
          match ParseInt toStr with
          | (_, Some err) => inr err
          | (to, None) => inl (Some to)
          end
        else inl None in
      match parsedTo with
      | inr err =>
          (StatusBadRequest,
           {| mresp_Success := false;
              mresp_Message := "Invalid 'to' parameter: " +:+ Error err;
              mresp_Metrics := None |})
      | inl req_To =>
          let groupBy := query "group_by" in
          let req_GroupBy :=
            if negb (String.eqb groupBy "") then Some groupBy else None in
          let req :=
            {| mr_EventName := req_EventName; mr_From := req_From;
               mr_To := req_To; mr_GroupBy := req_GroupBy |} in
          match ValidateMetricRequest nowFrom nowTo req with
          | Some err =>
              (StatusBadRequest,
               {| mresp_Success := false;
                  mresp_Message := "Validation failed: " +:+ Error err;
                  mresp_Metrics := None |})
          | None =>
              match services.GetMetrics db req with
              | (resp, Some err) =>
                  (StatusInternalServerError,
                   {| mresp_Success := false;
                      mresp_Message := "Internal server error: " +:+ Error err;
                      mresp_Metrics := mresp_Metrics resp |})
              | (resp, None) => (StatusOK, resp)
              end
          end
      end
  end.

End Handlers.

End api.

(** ** Sample data *)

Module samples.
Import domain database services.

Definition purchase (campaign : string) (tags : option (list string))
    (metadata : option (gmap string any)) : EventRequest :=
  {| EventName := "purchase"; Channel := "web"; CampaignID := campaign;
     UserID := "user_1"; Timestamp := 1700000000; Tags := tags;
     Metadata := metadata |}.

Definition event (name user : string) : EventRequest :=
  {| EventName := name; Channel := "web"; CampaignID := "c";
     UserID := user; Timestamp := 1700000000; Tags := Some [];
     Metadata := Some ∅ |}.

(** A reachable cache in which the given events are marked processed. *)
Definition cacheWith (seen : list EventRequest) : ClickHouseRedis :=
  {| Client :=
       redisUp (list_to_map
                  (map (fun e => (RedisKeyPrefix +:+ GetUniqueKey e, "1"%string))
                     seen));
     expirationMilliseconds := 3600000 |}.

Definition cacheDown : ClickHouseRedis :=
  {| Client := redisDown (errors_New "dial tcp: connection refused");
     expirationMilliseconds := 3600000 |}.

(** A store that accepts every insert and answers every query with no
    rows, and one that refuses every insert. *)
Definition storeUp : ClickHouseDB :=
  {| DB := Some {| Exec := fun _ => None; Scan := fun _ => ([], None) |} |}.

Definition storeDown : ClickHouseDB :=
  {| DB := Some {| Exec := fun _ => Some (errors_New "connection reset");
                   Scan := fun _ => ([], Some (errors_New "connection reset")) |} |}.

Definition clock : time.Time := time.Unix 1700000100 0.

(** A serializer for the sample events; they carry no metadata entry,
    so the writer does not call it on them. *)
Definition marshal (m : gmap string any) : string * option error :=
  ("{}"%string, None).

Definition queue (capacity : nat) (buf : list EventRequest) (waiting : bool)
  : EventBatcher :=
  {| eventChan := {| chan_cap := capacity; chan_buf := buf; chan_recv := waiting |};
     batchSize := 2; flushInterval := 1; isRunning := true;
     currentBatch := [] |}.

End samples.

(** ** Notions used to state the properties *)

Module notions.
Import domain database services.

(** The cache key of an event. *)
Definition cacheKey (e : EventRequest) : string :=
  RedisKeyPrefix +:+ GetUniqueKey e.

(** The entry [AreEventsProcessed] records for a fingerprint whose cache
    key holds [v]. *)
Definition entryOf (v : option string) : option bool :=
  match v with
  | None => Some false
  | Some str => if String.eqb str "1" then Some true else None
  end.

(** Every call of the columnar writer recorded in [fx] was given at
    least one event, and did not answer with the error it keeps for an
    empty input. *)
Definition savesNonEmpty (fx : list effect) : Prop :=
  Forall (fun f =>
            match f with
            | callSaveEvents requests result =>
                requests <> [] /\ result <> Some (errors_New "no events to insert")
            | goSetMultipleEventsProcessed _ => True
            end) fx.


(** The allowlist of [group_by] values with the bucket expression of
    each, as the metric planner's table gives it. *)
Definition allowlist : list (string * string) :=
  [ ("hour", "toString(toStartOfHour(timestamp))");
    ("day", "toString(toStartOfDay(timestamp))");
    ("week", "toString(toStartOfWeek(timestamp))");
    ("month", "toString(toStartOfMonth(timestamp))");
    ("year", "toString(toStartOfYear(timestamp))");
    ("channel", "channel");
    ("campaign_id", "campaign_id");
    ("user_id", "user_id");
    ("event_name", "event_name") ]%string.

Definition allowed (g : string) : Prop := In g (map fst allowlist).

(** The bucket expression a request's [group_by] maps to, if any. *)
Fixpoint assoc (table : list (string * string)) (g : string) : option string :=
  match table with
  | [] => None
  | (k, v) :: rest => if String.eqb g k then Some v else assoc rest g
  end.

Definition bucketExpr (GroupBy : option string) : option string :=
  match GroupBy with
  | Some g => assoc allowlist g
  | None => None
  end.

Definition withGroupBy (GroupBy : option string) (request : MetricRequest)
  : MetricRequest :=
  {| mr_EventName := mr_EventName request; mr_From := mr_From request;
     mr_To := mr_To request; mr_GroupBy := GroupBy |}.

Definition expr (query : string) (args : list arg) : QueryWithArgs :=
  {| Query := query; Args := args |}.

(** The text of a query that goes into the statement as it is: every
    clause's template and every [ch.Safe] argument.  The other
    arguments are bound as values. *)
Definition inlined (qa : QueryWithArgs) : list string :=
  Query qa
    :: flat_map (fun a => match a with ch_Safe text => [text] | _ => [] end)
         (Args qa).

Definition inlinedText (q : SelectQuery) : list string :=
  flat_map inlined (table q ++ columns q ++ where_ q ++ group q ++ order q).

(** The literals of [GetMetrics] in a query without grouping. *)
Definition ungroupedLiterals : list string :=
  [ "events FINAL"; "'total' AS bucket";
    "count() AS total_events"; "uniqExact(user_id) AS unique_users";
    "event_name = ?"; "timestamp >= ?"; "timestamp <= ?" ]%string.

(** The event_name filter as C4 words it: in the query exactly when the
    request has an event_name. *)
Definition eventNameFilterAsStated (request : MetricRequest) : Prop :=
  (exists args, In (expr "event_name = ?" args) (where_ (metricsQuery request)))
  <-> mr_EventName request <> None.

(** What the validation of an event checks, field by field. *)
Definition acceptable (now : Z) (request : EventRequest) : Prop :=
  gostrings.TrimSpace (EventName request) <> ""%string
  /\ gostrings.TrimSpace (Channel request) <> ""%string
  /\ 0 < Timestamp request <= now
  /\ UserID request <> ""%string
  /\ CampaignID request <> ""%string
  /\ (exists tags, Tags request = Some tags
       /\ Forall (fun tag => gostrings.TrimSpace tag <> ""%string) tags)
  /\ (exists metadata, Metadata request = Some metadata
       /\ forall key, is_Some (metadata !! key) ->
                      gostrings.TrimSpace key <> ""%string).

(** What the validation of a metric request checks. *)
Definition metricAcceptable (nowFrom nowTo : Z) (request : MetricRequest) : Prop :=
  (forall from, mr_From request = Some from -> 0 < from <= nowFrom)
  /\ (forall to, mr_To request = Some to -> 0 < to <= nowTo)
  /\ (forall from to, mr_From request = Some from -> mr_To request = Some to ->
      from <= to)
  /\ (forall g, mr_GroupBy request = Some g -> gostrings.TrimSpace g <> ""%string)
  /\ (forall name, mr_EventName request = Some name ->
      gostrings.TrimSpace name <> ""%string).

(** Whether a string holds the separator of the fingerprint. *)
Fixpoint hasSeparator (s : string) : bool :=
  match s with
  | EmptyString => false
  | String c rest => Ascii.eqb c "|" || hasSeparator rest
  end.

(** The cache handle after [SetMultipleEventsProcessed]: the same
    client, the server in the state the pipeline left it in. *)
Definition afterMarking (r : ClickHouseRedis) (requests : list EventRequest)
  : ClickHouseRedis :=
  {| Client := fst (SetMultipleEventsProcessed r requests);
     expirationMilliseconds := expirationMilliseconds r |}.

(** The events handed to the columnar writer along [fx], in order. *)
Definition handed (fx : list effect) : list EventRequest :=
  flat_map (fun f =>
              match f with
              | callSaveEvents requests _ => requests
              | goSetMultipleEventsProcessed _ => []
              end) fx.

(** The events a batcher holds: the current batch, then the queue. *)
Definition pending (b : EventBatcher) : list EventRequest :=
  currentBatch b ++ chan_buf (eventChan b).

(** Every successful write is followed at once by the marking of the
    events written, and nothing else is marked. *)
Inductive wellMarked : list effect -> Prop :=
  | wellMarked_nil : wellMarked []
  | wellMarked_written requests rest :
      wellMarked rest ->
      wellMarked (callSaveEvents requests None
                    :: goSetMultipleEventsProcessed requests :: rest)
  | wellMarked_failed requests err rest :
      wellMarked rest ->
      wellMarked (callSaveEvents requests (Some err) :: rest).


(** Producers and the worker taking turns on a batcher. *)
Inductive action : Type :=
  | produce (event : EventRequest)
  | consume (sc : selectCase).

(** [Enqueue] the events one after the other, with no turn of the
    worker in between: the batcher afterwards and the errors returned. *)
Fixpoint enqueueAll (events : list EventRequest) (b : EventBatcher)
  : EventBatcher * list (option error) :=
  match events with
  | [] => (b, [])
  | event :: rest =>
      let '(b, err) := Enqueue event b in
      let '(b, errs) := enqueueAll rest b in
      (b, err :: errs)
  end.

(** A stretch of the worker's run from [b] to [b'] with the actions
    [fx]: the events handed to the writer followed by those still
    held are, in order, among the events held before; the batch size
    and the capacity are the same; the queue did not grow; and the
    marking follows the writes. *)
Definition carriesOn (b b' : EventBatcher) (fx : list effect) : Prop :=
  sublist (handed fx ++ pending b') (pending b)
  /\ batchSize b' = batchSize b
  /\ chan_cap (eventChan b') = chan_cap (eventChan b)
  /\ (length (chan_buf (eventChan b')) <= length (chan_buf (eventChan b)))%nat
  /\ wellMarked fx.

(** The cache fails every command. *)
Definition cacheIsDown (env : Env) : Prop :=
  exists cerr, Client (env_redis env) = redisDown cerr.

Definition caseCacheDown (sc : selectCase) : Prop :=
  match sc with
  | ctxDone env1 env2 => cacheIsDown env1 /\ cacheIsDown env2
  | recvEvent env => cacheIsDown env
  | tickerC env => cacheIsDown env
  | blocked => True
  end.

Section Run.

Variable json_Marshal : gmap string any -> string * option error.

(** Producers and the worker interleaved; a turn of the worker after
    it has returned does nothing. *)
Fixpoint run (actions : list action) (b : EventBatcher) (returned : bool)
  : EventBatcher * bool :=
  match actions with
  | [] => (b, returned)
  | produce event :: rest => run rest (fst (Enqueue event b)) returned
  | consume sc :: rest =>
      if returned then run rest b returned
      else
        let '(b, _, returned) := workerTurn json_Marshal sc b in
        run rest b returned
  end.

End Run.



(** The query parameters [query] with [group_by] set to [g]. *)
Definition withGroupByParam (g : string) (query : string -> string)
  : string -> string :=
  fun key => if String.eqb key "group_by" then g else query key.

(** The texts the planner can inline: its literals and the bucket
    expressions of the allowlist. *)
Definition plannerTexts : list string :=
  [ "events FINAL"; "'total' AS bucket"; "? AS bucket";
    "count() AS total_events"; "uniqExact(user_id) AS unique_users";
    "event_name = ?"; "timestamp >= ?"; "timestamp <= ?"; "bucket ASC" ]%string
  ++ map snd allowlist.

End notions.

(** * Properties *)

Import domain.

(** ** The fingerprint *)

Section Fingerprint.

Lemma to_int_nonnil (i : Z) :
  Z.to_int i <> Decimal.Pos Decimal.Nil /\ Z.to_int i <> Decimal.Neg Decimal.Nil.
Proof.
  destruct i as [|p|p]; simpl; split; try discriminate;
    intros H; injection H as H; exact (DecimalPos.Unsigned.to_uint_nonnil p H).
Qed.

(** The text [strconv.FormatInt] prints is a decimal numeral of the
    integer printed. *)
Lemma ParseInt_FormatInt (i : Z) :
  strconv.ParseInt (strconv.FormatInt i) = Some i.
Proof.
  unfold strconv.ParseInt, strconv.FormatInt.
  destruct (to_int_nonnil i) as [Hpos Hneg].
  rewrite (NilZero.isi _ Hpos Hneg). simpl.
  now rewrite DecimalZ.of_to.
Qed.

Lemma FormatInt_inj (i j : Z) :
  strconv.FormatInt i = strconv.FormatInt j -> i = j.
Proof.
  intros H. apply (f_equal strconv.ParseInt) in H.
  rewrite !ParseInt_FormatInt in H. congruence.
Qed.

(** C5. The fingerprint of an event is
    [event_name|user_id|timestamp|channel], the timestamp printed as
    the decimal numeral that denotes it; two events that agree on these
    four fields have the same fingerprint, whatever their campaign_id,
    tags and metadata. *)
Theorem GetUniqueKey_fingerprint (e : EventRequest) :
  GetUniqueKey e
  = EventName e +:+ "|" +:+ UserID e +:+ "|"
      +:+ strconv.FormatInt (Timestamp e) +:+ "|" +:+ Channel e
  /\ strconv.ParseInt (strconv.FormatInt (Timestamp e)) = Some (Timestamp e)
  /\ (forall campaign tags metadata,
        GetUniqueKey {| EventName := EventName e; Channel := Channel e;
                        CampaignID := campaign; UserID := UserID e;
                        Timestamp := Timestamp e; Tags := tags;
                        Metadata := metadata |}
        = GetUniqueKey e)
  /\ (forall e' : EventRequest,
        EventName e' = EventName e -> UserID e' = UserID e ->
        Timestamp e' = Timestamp e -> Channel e' = Channel e ->
        GetUniqueKey e' = GetUniqueKey e).
Proof.
  repeat split.
  - apply ParseInt_FormatInt.
  - intros e' Hn Hu Ht Hc. unfold GetUniqueKey. now rewrite Hn, Hu, Ht, Hc.
Qed.

Lemma GetUniqueKey_fingerprint_witness :
  GetUniqueKey (samples.purchase "summer" (Some ["vip"%string]) None)
  = GetUniqueKey (samples.purchase "c" (Some []) (Some ∅))
  /\ GetUniqueKey (samples.purchase "c" (Some []) (Some ∅))
     = "purchase|user_1|1700000000|web"%string.
Proof.
  split.
  - apply (GetUniqueKey_fingerprint (samples.purchase "c" (Some []) (Some ∅)));
      reflexivity.
  - reflexivity.
Defined.

(** C9. The fingerprint is not injective: the separator is not escaped,
    so two events with different event_name and different user_id, and
    the same timestamp and channel, can share a fingerprint. *)
Theorem GetUniqueKey_not_injective :
  exists e1 e2 : EventRequest,
    EventName e1 = "a|b"%string /\ UserID e1 = "c"%string
    /\ EventName e2 = "a"%string /\ UserID e2 = "b|c"%string
    /\ EventName e1 <> EventName e2 /\ UserID e1 <> UserID e2
    /\ Timestamp e1 = Timestamp e2 /\ Channel e1 = Channel e2
    /\ GetUniqueKey e1 = GetUniqueKey e2.
Proof.
  exists {| EventName := "a|b"; Channel := "web"; CampaignID := "c1";
            UserID := "c"; Timestamp := 1700000000; Tags := Some [];
            Metadata := Some ∅ |},
         {| EventName := "a"; Channel := "web"; CampaignID := "c1";
            UserID := "b|c"; Timestamp := 1700000000; Tags := Some [];
            Metadata := Some ∅ |}.
  simpl. repeat split; try discriminate.
Qed.

End Fingerprint.

(** ** The dedup filter *)

Section Filter.
Import database services notions.

Lemma rangeEvents_filter (m : gmap string bool) (events acc : list EventRequest) :
  rangeEvents (Some m) events acc
  = acc ++ filter (fun e => m !! GetUniqueKey e <> Some true) events.
Proof.
  revert acc. induction events as [|e events IH]; intros acc.
  - simpl. now rewrite app_nil_r.
  - rewrite filter_cons. cbn [rangeEvents index].
    destruct (decide (m !! GetUniqueKey e <> Some true)) as [Hk|Hk];
      destruct (m !! GetUniqueKey e) as [[|]|]; cbn [negb orb];
      rewrite IH; try (now rewrite <- app_assoc); try reflexivity;
      exfalso; apply Hk; (reflexivity || discriminate).
Qed.

Lemma filterProcessedEvents_same r events :
  EventBatcher_.filterProcessedEvents r events
  = eventService_.filterProcessedEvents r events.
Proof. reflexivity. Qed.

(** C7. The dedup filter keeps, in input order, exactly the events whose
    fingerprint the batch lookup does not map to [true] (a fingerprint
    missing from the mapping counts as unprocessed); when the lookup
    fails, the input comes back unchanged. *)
Theorem filterProcessedEvents_spec (r : ClickHouseRedis) (events : list EventRequest) :
  match AreEventsProcessed r events with
  | (_, Some _) => EventBatcher_.filterProcessedEvents r events = events
  | (Some m, None) =>
      EventBatcher_.filterProcessedEvents r events
      = filter (fun e => m !! GetUniqueKey e <> Some true) events
  | (None, None) => False
  end.
Proof.
  unfold EventBatcher_.filterProcessedEvents, AreEventsProcessed.
  destruct (MGet r _) as [results [err|]].
  - reflexivity.
  - apply (rangeEvents_filter _ events []).
Qed.

(** *** What the mapping holds when the cache answers *)

(** The cache answers [MGet] with one reply per key. *)
Lemma MGet_length r keys results :
  MGet r keys = (results, None) -> length results = length keys.
Proof.
  unfold MGet. destruct (Client r) as [m|err]; [|discriminate].
  destruct keys as [|k keys]; [discriminate|].
  intros [= <-]. cbn [length]. f_equal. apply length_map.
Qed.

Lemma rangeResults_lookup (keys : gmap string string)
    (requests : list EventRequest) (acc : gmap string bool) (e : EventRequest) :
  rangeResults requests (map (fun r => keys !! cacheKey r) requests) acc
    !! GetUniqueKey e
  = if bool_decide (GetUniqueKey e ∈ map GetUniqueKey requests
                    /\ is_Some (entryOf (keys !! cacheKey e)))
    then entryOf (keys !! cacheKey e)
    else acc !! GetUniqueKey e.
Proof.
  revert acc. induction requests as [|r requests IH]; intros acc.
  - cbn [map rangeResults]. case_bool_decide as H; [|reflexivity].
    destruct H as [H _]. inversion H.
  - cbn [map rangeResults]. rewrite IH. clear IH.
    assert (Hsame : GetUniqueKey r = GetUniqueKey e -> cacheKey r = cacheKey e)
      by (unfold cacheKey; congruence).
    case_bool_decide as Hin.
    + destruct Hin as [Hin Hs].
      rewrite bool_decide_eq_true_2; [reflexivity|].
      split; [right|]; assumption.
    + destruct (decide (GetUniqueKey r = GetUniqueKey e)) as [Heq|Hne].
      * specialize (Hsame Heq). rewrite Hsame, Heq.
        destruct (keys !! cacheKey e) as [str|] eqn:Ek; cbn [entryOf].
        -- destruct (String.eqb str "1") eqn:E1.
           ++ rewrite lookup_insert_eq.
              rewrite bool_decide_eq_true_2; [reflexivity|].
              split; [left | eexists; reflexivity].
           ++ rewrite bool_decide_eq_false_2; [reflexivity|].
              intros [_ [x Hx]]. discriminate.
        -- rewrite lookup_insert_eq.
           rewrite bool_decide_eq_true_2; [reflexivity|].
           split; [left | eexists; reflexivity].
      * rewrite bool_decide_eq_false_2.
        2:{ intros [Hin' Hs]. apply Hin. split; [|assumption].
            inversion Hin'; subst; [congruence | assumption]. }
        destruct (keys !! cacheKey r) as [str|].
        -- destruct (String.eqb str "1"); [|reflexivity].
           now rewrite lookup_insert_ne.
        -- now rewrite lookup_insert_ne.
Qed.

Lemma filter_ext_elem {A} (P Q : A -> Prop) `{!forall x, Decision (P x)}
    `{!forall x, Decision (Q x)} (l : list A) :
  (forall x, x ∈ l -> (P x <-> Q x)) -> filter P l = filter Q l.
Proof.
  induction l as [|x l IH]; intros Hext; [reflexivity|].
  rewrite !filter_cons, IH by (intros y Hy; apply Hext; now right).
  pose proof (Hext x ltac:(left)) as Hx.
  destruct (decide (P x)), (decide (Q x)); tauto.
Qed.

(** With a reachable cache, an event is filtered out exactly when its
    cache key holds the sentinel ["1"]. *)
Lemma filterProcessedEvents_redisUp (keys : gmap string string) (ttl : Z)
    (events : list EventRequest) :
  EventBatcher_.filterProcessedEvents
    {| Client := redisUp keys; expirationMilliseconds := ttl |} events
  = filter (fun e => keys !! cacheKey e <> Some "1"%string) events.
Proof.
  destruct events as [|e0 events0]; [reflexivity|].
  set (events := e0 :: events0).
  unfold EventBatcher_.filterProcessedEvents, AreEventsProcessed, MGet.
  cbn [Client].
  destruct (map (fun request => RedisKeyPrefix +:+ GetUniqueKey request) events)
    as [|k ks] eqn:K; [discriminate K|]. rewrite <- K. clear K k ks.
  rewrite map_map.
  rewrite (rangeEvents_filter _ events []). cbn [app].
  apply filter_ext_elem. intros e He.
  change (fun x : EventRequest => keys !! (RedisKeyPrefix +:+ GetUniqueKey x))
    with (fun x : EventRequest => keys !! cacheKey x).
  rewrite rangeResults_lookup, lookup_empty.
  assert (Hk : GetUniqueKey e ∈ map GetUniqueKey events)
    by (apply list_elem_of_fmap; eauto).
  destruct (keys !! cacheKey e) as [str|] eqn:Ek; cbn [entryOf].
  - destruct (String.eqb str "1") eqn:E1.
    + apply String.eqb_eq in E1. subst str.
      rewrite bool_decide_eq_true_2 by (split; [assumption | eexists; reflexivity]).
      split; intros H; now elim H.
    + rewrite bool_decide_eq_false_2 by (intros [_ [x Hx]]; discriminate).
      apply String.eqb_neq in E1. split; intros _; congruence.
  - rewrite bool_decide_eq_true_2 by (split; [assumption | eexists; reflexivity]).
    split; intros _; discriminate.
Qed.

End Filter.

(** ** The intake queue *)

Section Intake.
Import database services notions.

Lemma Enqueue_ready (event : EventRequest) (b : EventBatcher) :
  sendReady (eventChan b) = true ->
  Enqueue event b = (setChan (send event (eventChan b)) b, None).
Proof. intros H. unfold Enqueue. now rewrite H. Qed.

Lemma Enqueue_full (event : EventRequest) (b : EventBatcher) :
  sendReady (eventChan b) = false ->
  Enqueue event b = (b, Some ErrBufferFull).
Proof. intros H. unfold Enqueue. now rewrite H. Qed.

(** [Enqueue] answers at once with one of two results. *)
Lemma Enqueue_total (event : EventRequest) (b : EventBatcher) :
  Enqueue event b = (setChan (send event (eventChan b)) b, None)
  \/ Enqueue event b = (b, Some ErrBufferFull).
Proof.
  destruct (sendReady (eventChan b)) eqn:E;
    [left; now apply Enqueue_ready | right; now apply Enqueue_full].
Qed.

Lemma sendReady_buffered (ch : Chan) :
  (0 < chan_cap ch)%nat ->
  sendReady ch = (length (chan_buf ch) <? chan_cap ch)%nat.
Proof.
  intros H. unfold sendReady.
  destruct (Nat.eqb_spec (chan_cap ch) 0) as [E|E]; [lia | reflexivity].
Qed.

(** On an unbuffered channel the send goes through exactly when the
    worker is waiting to receive. *)
Lemma Enqueue_unbuffered (event : EventRequest) (b : EventBatcher) :
  chan_cap (eventChan b) = 0%nat -> chan_buf (eventChan b) = [] ->
  snd (Enqueue event b)
  = if chan_recv (eventChan b) then None else Some ErrBufferFull.
Proof.
  intros Hc Hb. unfold Enqueue, sendReady. rewrite Hc, Hb. cbn.
  now destruct (chan_recv (eventChan b)).
Qed.




End Intake.

(** ** The ingestion facade *)

Section Facade.
Import database services notions.

Lemma errors_Is_None target : errors_Is None target = false.
Proof. reflexivity. Qed.

Lemma IsEventProcessed_true_nil r e :
  fst (IsEventProcessed r e) = true -> snd (IsEventProcessed r e) = None.
Proof.
  unfold IsEventProcessed.
  destruct (Get r _) as [result err].
  destruct (errors_Is err redis_Nil); [discriminate|].
  destruct err; [discriminate | reflexivity].
Qed.

(** The lookup reports an event processed exactly when the cache answers
    and the event's key holds ["1"]. *)
Lemma IsEventProcessed_redisUp keys ttl e :
  IsEventProcessed {| Client := redisUp keys; expirationMilliseconds := ttl |} e
  = (bool_decide (keys !! cacheKey e = Some "1"%string), None).
Proof.
  unfold IsEventProcessed, Get. cbn [Client]. fold (cacheKey e).
  destruct (keys !! cacheKey e) as [v|]; cbn.
  - f_equal. destruct (String.eqb_spec v "1") as [->|Hne].
    + now rewrite bool_decide_eq_true_2.
    + rewrite bool_decide_eq_false_2; [reflexivity | congruence].
  - reflexivity.
Qed.

(** A failing cache: the lookup returns [false] with the error (no error
    when the failure is, or wraps, [redis.Nil]). *)
Lemma IsEventProcessed_redisDown cerr ttl e :
  IsEventProcessed {| Client := redisDown cerr; expirationMilliseconds := ttl |} e
  = (false, if errors_Is (Some cerr) redis_Nil then None else Some cerr).
Proof.
  unfold IsEventProcessed, Get. cbn [Client].
  now destruct (errors_Is (Some cerr) redis_Nil).
Qed.

(** C2. [PostEvents]: an event the cache reports processed gets the
    answer "Event already processed" and is not enqueued; when the
    lookup fails the event goes on to [Enqueue] all the same; when
    [Enqueue] reports the buffer full the answer has success = false and
    [ErrBufferFull] is returned; otherwise the event is enqueued and the
    answer is a success. *)
Theorem PostEvents_spec (r : ClickHouseRedis) (b : EventBatcher) (e : EventRequest) :
  let '(resp, err, b') := PostEvents r b e in
  (fst (IsEventProcessed r e) = true ->
   resp = {| er_Success := true; er_Message := "Event already processed" |}
   /\ err = None /\ b' = b)
  /\ (forall cerr, snd (IsEventProcessed r e) = Some cerr ->
      (b', err) = Enqueue e b)
  /\ (fst (IsEventProcessed r e) = false ->
      snd (Enqueue e b) = Some ErrBufferFull ->
      er_Success resp = false /\ err = Some ErrBufferFull /\ b' = b)
  /\ (fst (IsEventProcessed r e) = false ->
      snd (Enqueue e b) <> Some ErrBufferFull ->
      er_Success resp = true /\ err = None
      /\ b' = setChan (send e (eventChan b)) b
      /\ chan_buf (eventChan b') = chan_buf (eventChan b) ++ [e]).
Proof.
  unfold PostEvents.
  pose proof (IsEventProcessed_true_nil r e) as Hnil.
  destruct (IsEventProcessed r e) as [isProcessed cerr0]. cbn [fst snd] in *.
  destruct isProcessed.
  - repeat split; try discriminate.
    intros cerr Hc. rewrite Hnil in Hc by reflexivity. discriminate.
  - destruct (Enqueue_total e b) as [E|E]; rewrite E; cbn [fst snd];
      repeat split; try discriminate; try reflexivity;
      match goal with H : ?x <> ?x |- _ => now elim H end.
Qed.

Lemma PostEvents_spec_witness :
  let e := samples.event "purchase" "user_1" in
  PostEvents (samples.cacheWith [e]) (samples.queue 1 [] false) e
  = ({| er_Success := true; er_Message := "Event already processed" |},
     None, samples.queue 1 [] false)
  /\ snd (PostEvents samples.cacheDown (samples.queue 1 [] false) e)
     = samples.queue 1 [e] false
  /\ snd (fst (PostEvents samples.cacheDown (samples.queue 1 [e] false) e))
     = Some ErrBufferFull.
Proof.
  intros e. split; [|split].
  - pose proof (PostEvents_spec (samples.cacheWith [e]) (samples.queue 1 [] false) e) as H.
    destruct (PostEvents (samples.cacheWith [e]) (samples.queue 1 [] false) e)
      as [[resp err] b'].
    destruct H as [H _]. destruct (H eq_refl) as (-> & -> & ->). reflexivity.
  - pose proof (PostEvents_spec samples.cacheDown (samples.queue 1 [] false) e) as H.
    destruct (PostEvents samples.cacheDown (samples.queue 1 [] false) e)
      as [[resp err] b'].
    destruct H as (_ & _ & _ & H).
    destruct (H eq_refl ltac:(discriminate)) as (_ & _ & -> & _). reflexivity.
  - pose proof (PostEvents_spec samples.cacheDown (samples.queue 1 [e] false) e) as H.
    destruct (PostEvents samples.cacheDown (samples.queue 1 [e] false) e)
      as [[resp err] b'].
    destruct H as (_ & _ & H & _).
    destruct (H eq_refl eq_refl) as (_ & -> & _). reflexivity.
Defined.

End Facade.

(** ** The columnar writer and the two write paths *)

Section WritePaths.
Import database services notions.

Variable json_Marshal : gmap string any -> string * option error.

Lemma rangeRequests_error now requests cols err :
  rangeRequests json_Marshal now requests cols = inr err ->
  exists inner, err = fmt_Errorf_w "failed to serialize metadata: " inner.
Proof.
  revert cols. induction requests as [|request rest IH]; intros cols; cbn.
  - discriminate.
  - destruct (Metadata request) as [metadata|].
    + destruct (0 <? Z.of_nat (size metadata)).
      * destruct (json_Marshal metadata) as [text [merr|]].
        -- intros [= <-]. eauto.
        -- apply IH.
      * apply IH.
    + apply IH.
Qed.

(** The error for an empty input is returned for an empty input only. *)
Lemma SaveEvents_no_events now c requests :
  SaveEvents json_Marshal now c requests = Some (errors_New "no events to insert") ->
  requests = [].
Proof.
  unfold SaveEvents. destruct (DB c) as [db|]; [|discriminate].
  destruct requests as [|request rest]; [reflexivity|]. cbn [length Nat.eqb].
  destruct (rangeRequests _ _ _ _) as [cols|err] eqn:E.
  - destruct (Exec db cols); discriminate.
  - apply rangeRequests_error in E as [inner ->]. discriminate.
Qed.

Lemma SaveEvents_nil now db :
  SaveEvents json_Marshal now {| DB := Some db |} []
  = Some (errors_New "no events to insert").
Proof. reflexivity. Qed.

(** *** The bulk path *)

(** What [PostEventsBulk] does hold: the total is the number of input
    events, and the counts follow the outcome of the one write. *)
Lemma PostEventsBulk_counts (env : Env) (bulkData : BulkEventRequest) :
  let '(resp, err, fx) := PostEventsBulk json_Marshal env bulkData in
  let written :=
    eventService_.filterProcessedEvents (env_redis env) (Events bulkData) in
  let total := Z.of_nat (length (Events bulkData)) in
  TotalCount resp = total
  /\ err = SaveEvents json_Marshal (env_now env) (env_db env) written
  /\ (err = None ->
      Success resp = true /\ SuccessCount resp = total /\ FailureCount resp = 0
      /\ fx = [callSaveEvents written None; goSetMultipleEventsProcessed written])
  /\ (err <> None ->
      Success resp = false /\ SuccessCount resp = 0 /\ FailureCount resp = total
      /\ fx = [callSaveEvents written err]).
Proof.
  unfold PostEventsBulk.
  destruct (SaveEvents _ _ _ _) as [err|]; cbn; repeat split;
    try discriminate; try reflexivity;
    match goal with H : ?x <> ?x |- _ => now elim H end.
Qed.

(** When the cache marks every event of the request as processed, the
    writer is called with no event and the request is reported failed. *)
Lemma PostEventsBulk_all_seen keys ttl db now (events : list EventRequest) :
  Forall (fun e => keys !! cacheKey e = Some "1"%string) events ->
  PostEventsBulk json_Marshal
    {| env_redis := {| Client := redisUp keys; expirationMilliseconds := ttl |};
       env_db := {| DB := Some db |}; env_now := now |}
    {| Events := events |}
  = ({| Success := false;
        Message := "Failed to save bulk events: no events to insert";
        TotalCount := Z.of_nat (length events);
        SuccessCount := 0;
        FailureCount := Z.of_nat (length events) |},
     Some (errors_New "no events to insert"),
     [callSaveEvents [] (Some (errors_New "no events to insert"))]).
Proof.
  intros Hall. unfold PostEventsBulk. cbn [env_redis env_db env_now Events].
  rewrite <- filterProcessedEvents_same, filterProcessedEvents_redisUp.
  assert (Hnil : filter (fun e => keys !! cacheKey e <> Some "1"%string) events = []).
  { induction Hall as [|e rest He _ IH]; [reflexivity|].
    rewrite filter_cons, IH. now rewrite decide_False by (intros H; now apply H). }
  rewrite Hnil. reflexivity.
Qed.

(** C1, at a failing input. A bulk request whose only event is already
    marked processed in the cache: the filter leaves nothing, the writer
    refuses the empty input, and the response reports the event as
    failed, with the writer's error. *)
Theorem PostEventsBulk_all_filtered_fails :
  let e := samples.event "purchase" "user_1" in
  eventService_.filterProcessedEvents (samples.cacheWith [e]) [e] = []
  /\ PostEventsBulk json_Marshal
       {| env_redis := samples.cacheWith [e]; env_db := samples.storeUp;
          env_now := samples.clock |}
       {| Events := [e] |}
     = ({| Success := false;
           Message := "Failed to save bulk events: no events to insert";
           TotalCount := 1; SuccessCount := 0; FailureCount := 1 |},
        Some (errors_New "no events to insert"),
        [callSaveEvents [] (Some (errors_New "no events to insert"))]).
Proof.
  intros e.
  assert (Hf : eventService_.filterProcessedEvents (samples.cacheWith [e]) [e] = [])
    by (vm_compute; reflexivity).
  split; [exact Hf|].
  unfold PostEventsBulk. cbn [env_redis env_db env_now Events]. rewrite Hf.
  reflexivity.
Qed.

(** *** The batcher *)

Lemma savesNonEmpty_app fx1 fx2 :
  savesNonEmpty fx1 -> savesNonEmpty fx2 -> savesNonEmpty (fx1 ++ fx2).
Proof. unfold savesNonEmpty. intros. now apply Forall_app. Qed.

Lemma savesNonEmpty_nil : savesNonEmpty [].
Proof. constructor. Qed.

Lemma flushBatch_empty env b :
  currentBatch b = [] -> flushBatch json_Marshal env b = (b, []).
Proof. intros H. unfold flushBatch. now rewrite H. Qed.

Lemma flushBatch_all_filtered env b :
  EventBatcher_.filterProcessedEvents (env_redis env) (currentBatch b) = [] ->
  snd (flushBatch json_Marshal env b) = [].
Proof.
  intros H. unfold flushBatch.
  destruct (length (currentBatch b) =? 0)%nat; [reflexivity|].
  now rewrite H.
Qed.

Lemma flushBatch_saves env b :
  savesNonEmpty (snd (flushBatch json_Marshal env b)).
Proof.
  unfold flushBatch.
  destruct (length (currentBatch b) =? 0)%nat; [apply savesNonEmpty_nil|].
  set (u := EventBatcher_.filterProcessedEvents _ _).
  destruct (Nat.eqb_spec (length u) 0) as [E|E]; [apply savesNonEmpty_nil|].
  assert (Hu : u <> []) by (intros ->; now apply E).
  destruct (SaveEvents _ _ _ u) as [err|] eqn:S; cbn.
  - repeat constructor; [assumption|].
    intros [= ->]. apply SaveEvents_no_events in S. contradiction.
  - repeat constructor; [assumption | discriminate].
Qed.

Lemma flushRemaining_saves env1 env2 b :
  savesNonEmpty (snd (flushRemaining json_Marshal env1 env2 b)).
Proof.
  unfold flushRemaining.
  destruct (0 <? length (currentBatch b))%nat.
  - pose proof (flushBatch_saves env1 b) as H1.
    destruct (flushBatch json_Marshal env1 b) as [b1 fx1]. cbn [snd] in H1.
    destruct (drain _ _ _) as [batch drained].
    destruct (0 <? drained)%nat; [|exact H1].
    match goal with |- context [flushBatch json_Marshal env2 ?b2] =>
      pose proof (flushBatch_saves env2 b2) as H2;
      destruct (flushBatch json_Marshal env2 b2) as [b3 fx2] end.
    now apply savesNonEmpty_app.
  - destruct (drain _ _ _) as [batch drained].
    destruct (0 <? drained)%nat; [|apply savesNonEmpty_nil].
    match goal with |- context [flushBatch json_Marshal env2 ?b2] =>
      pose proof (flushBatch_saves env2 b2) as H2;
      destruct (flushBatch json_Marshal env2 b2) as [b3 fx2] end.
    exact H2.
Qed.

Lemma workerTurn_saves sc b :
  savesNonEmpty (snd (fst (workerTurn json_Marshal sc b))).
Proof.
  destruct sc as [env1 env2|env|env|]; cbn [workerTurn].
  - match goal with |- context [flushRemaining json_Marshal env1 env2 ?b2] =>
      pose proof (flushRemaining_saves env1 env2 b2) as H;
      now destruct (flushRemaining json_Marshal env1 env2 b2) end.
  - destruct (recv (eventChan b)) as [[event ch]|]; [|apply savesNonEmpty_nil].
    match goal with |- context [if ?c then _ else _] => destruct c end;
      [|apply savesNonEmpty_nil].
    match goal with |- context [flushBatch json_Marshal env ?b2] =>
      pose proof (flushBatch_saves env b2) as H;
      now destruct (flushBatch json_Marshal env b2) end.
  - match goal with |- context [if ?c then _ else _] => destruct c end;
      [|apply savesNonEmpty_nil].
    match goal with |- context [flushBatch json_Marshal env ?b2] =>
      pose proof (flushBatch_saves env b2) as H;
      now destruct (flushBatch json_Marshal env b2) end.
  - apply savesNonEmpty_nil.
Qed.

Lemma worker_saves schedule b :
  savesNonEmpty (snd (fst (worker json_Marshal schedule b))).
Proof.
  revert b. induction schedule as [|sc rest IH]; intros b; cbn [worker].
  - apply savesNonEmpty_nil.
  - pose proof (workerTurn_saves sc b) as H.
    destruct (workerTurn json_Marshal sc b) as [[b1 fx] returned]. cbn in H.
    destruct returned; [exact H|].
    specialize (IH b1).
    destruct (worker json_Marshal rest b1) as [[b2 fx'] returned']. cbn in IH |- *.
    now apply savesNonEmpty_app.
Qed.

(** C10. The batcher never calls the columnar writer with an empty
    batch: [flushBatch] returns before writing when the batch it
    snapshots is empty and when the dedup filter removes every event, so
    along the flush and drain paths ([flushBatch], [flushRemaining], any
    run of the worker) every call of the writer carries at least one
    event and none answers "no events to insert". *)
Theorem batcher_never_writes_empty (env env' : Env) (b : EventBatcher)
    (schedule : list selectCase) :
  (currentBatch b = [] -> flushBatch json_Marshal env b = (b, []))
  /\ (EventBatcher_.filterProcessedEvents (env_redis env) (currentBatch b) = [] ->
      snd (flushBatch json_Marshal env b) = [])
  /\ savesNonEmpty (snd (flushBatch json_Marshal env b))
  /\ savesNonEmpty (snd (flushRemaining json_Marshal env env' b))
  /\ savesNonEmpty (snd (fst (worker json_Marshal schedule b))).
Proof.
  split; [apply flushBatch_empty|].
  split; [apply flushBatch_all_filtered|].
  split; [apply flushBatch_saves|].
  split; [apply flushRemaining_saves | apply worker_saves].
Qed.

End WritePaths.

(** ** The metric query planner *)

Section Planner.
Import database notions.

Lemma assoc_In (table : list (string * string)) (g : string) :
  In g (map fst table) <-> is_Some (assoc table g).
Proof.
  induction table as [|[k v] rest IH]; cbn [map fst In assoc].
  - split; [contradiction | intros [x Hx]; discriminate].
  - destruct (String.eqb_spec g k) as [->|Hne].
    + split; [eauto | tauto].
    + rewrite <- IH. split; [intros [H|H]; [congruence | assumption] | tauto].
Qed.

Lemma not_allowed_bucketExpr (g : string) :
  ~ allowed g -> bucketExpr (Some g) = None.
Proof.
  intros H. unfold bucketExpr.
  destruct (assoc allowlist g) as [x|] eqn:A; [|reflexivity].
  elim H. apply assoc_In. rewrite A. eauto.
Qed.

(** The switch of [GetMetrics] is the allowlist table; a value outside
    it leaves the expression empty. *)
Lemma groupExprOf_allowlist (GroupBy : option string) :
  groupExprOf GroupBy = default ""%string (bucketExpr GroupBy)
  /\ bucketExpr GroupBy <> Some ""%string.
Proof.
  destruct GroupBy as [g|]; [|split; [reflexivity | discriminate]].
  unfold groupExprOf, bucketExpr, allowlist. cbn [assoc].
  repeat (destruct (String.eqb g _); [split; [reflexivity | discriminate]|]).
  split; [reflexivity | discriminate].
Qed.

(** The clauses of the query [GetMetrics] scans, one by one. *)
Lemma metricsQuery_clauses (request : MetricRequest) :
  metricsQuery request
  = {| table := [expr "events FINAL" []];
       columns :=
         [ match bucketExpr (mr_GroupBy request) with
           | Some e => expr "? AS bucket" [ch_Safe e]
           | None => expr "'total' AS bucket" []
           end;
           expr "count() AS total_events" [];
           expr "uniqExact(user_id) AS unique_users" [] ];
       where_ :=
         match mr_EventName request with
         | Some name =>
             if String.eqb name "" then []
             else [expr "event_name = ?" [argString name]]
         | None => []
         end
         ++ match mr_From request with
            | Some from => [expr "timestamp >= ?" [argTime (time.Unix from 0)]]
            | None => []
            end
         ++ match mr_To request with
            | Some to => [expr "timestamp <= ?" [argTime (time.Unix to 0)]]
            | None => []
            end;
       group :=
         match bucketExpr (mr_GroupBy request) with
         | Some e => [expr e []]
         | None => []
         end;
       order :=
         match bucketExpr (mr_GroupBy request) with
         | Some _ => [expr "bucket ASC" []]
         | None => []
         end |}.
Proof.
  unfold metricsQuery.
  destruct (groupExprOf_allowlist (mr_GroupBy request)) as [-> Hne].
  destruct (bucketExpr (mr_GroupBy request)) as [e|]; cbn [from_option id].
  - destruct (String.eqb_spec e "") as [->|_]; [now elim Hne|]. cbn [negb].
    destruct (mr_EventName request) as [name|];
      [destruct (String.eqb name "")|];
      destruct (mr_From request), (mr_To request); reflexivity.
  - cbn [String.eqb negb].
    destruct (mr_EventName request) as [name|];
      [destruct (String.eqb name "")|];
      destruct (mr_From request), (mr_To request); reflexivity.
Qed.

(** C3. A [group_by] value outside the allowlist is ignored: the query
    built, and so the result returned, are those of the same request
    without [group_by]; the bucket column is the literal ['total'], there
    is no GROUP BY and no ORDER BY clause, and the only text inlined into
    the statement is the planner's own literals. *)
Theorem GetMetrics_outside_allowlist (db : chDB) (request : MetricRequest)
    (g : string) :
  ~ allowed g ->
  let given := withGroupBy (Some g) request in
  let absent := withGroupBy None request in
  metricsQuery given = metricsQuery absent
  /\ database.GetMetrics db given = database.GetMetrics db absent
  /\ services.GetMetrics db given = services.GetMetrics db absent
  /\ columns (metricsQuery given)
     = [ expr "'total' AS bucket" []; expr "count() AS total_events" [];
         expr "uniqExact(user_id) AS unique_users" [] ]
  /\ group (metricsQuery given) = []
  /\ order (metricsQuery given) = []
  /\ (forall text, In text (inlinedText (metricsQuery given)) ->
      In text ungroupedLiterals).
Proof.
  intros Hg given absent.
  assert (Hq : metricsQuery given = metricsQuery absent).
  { rewrite !metricsQuery_clauses. subst given absent.
    cbn [withGroupBy mr_GroupBy mr_EventName mr_From mr_To].
    rewrite (not_allowed_bucketExpr g Hg). reflexivity. }
  split; [exact Hq|].
  split; [unfold database.GetMetrics; now rewrite Hq|].
  split; [unfold services.GetMetrics, database.GetMetrics; now rewrite Hq|].
  rewrite Hq, metricsQuery_clauses. subst absent.
  cbn [withGroupBy mr_GroupBy mr_EventName mr_From mr_To bucketExpr
       columns group order].
  repeat split.
  intros text. unfold inlinedText.
  cbn [table columns where_ group order].
  destruct (mr_EventName request) as [name|];
    [destruct (String.eqb name "")|];
    destruct (mr_From request), (mr_To request);
    cbn; intuition (subst; auto).
Qed.

Lemma GetMetrics_outside_allowlist_witness :
  let hostile := ";DROP TABLE events"%string in
  let request := {| mr_EventName := Some "purchase"%string; mr_From := None;
                    mr_To := None; mr_GroupBy := Some hostile |} in
  metricsQuery request
  = {| table := [expr "events FINAL" []];
       columns := [ expr "'total' AS bucket" [];
                    expr "count() AS total_events" [];
                    expr "uniqExact(user_id) AS unique_users" [] ];
       where_ := [expr "event_name = ?" [argString "purchase"]];
       group := []; order := [] |}
  /\ metricsQuery request
     = metricsQuery {| mr_EventName := Some "purchase"%string; mr_From := None;
                       mr_To := None; mr_GroupBy := None |}.
Proof.
  intros hostile request. split; [reflexivity|].
  apply (GetMetrics_outside_allowlist
           {| Exec := fun _ => None; Scan := fun _ => ([], None) |}
           request hostile).
  unfold allowed. cbn. intuition discriminate.
Defined.

(** The query of any [MetricRequest] value, clause by clause.  The
    event_name filter is guarded twice in [GetMetrics]: the field is
    present, and it is not the empty string. *)
Lemma metricsQuery_guards (request : MetricRequest) :
  let q := metricsQuery request in
  let bucket := bucketExpr (mr_GroupBy request) in
  table q = [expr "events FINAL" []]
  /\ columns q
     = [ match bucket with
         | Some e => expr "? AS bucket" [ch_Safe e]
         | None => expr "'total' AS bucket" []
         end;
         expr "count() AS total_events" [];
         expr "uniqExact(user_id) AS unique_users" [] ]
  /\ (forall args, In (expr "event_name = ?" args) (where_ q)
      <-> exists name, mr_EventName request = Some name /\ name <> ""%string
                       /\ args = [argString name])
  /\ (forall args, In (expr "timestamp >= ?" args) (where_ q)
      <-> exists from, mr_From request = Some from
                       /\ args = [argTime (time.Unix from 0)])
  /\ (forall args, In (expr "timestamp <= ?" args) (where_ q)
      <-> exists to, mr_To request = Some to
                     /\ args = [argTime (time.Unix to 0)])
  /\ (forall qa, In qa (where_ q) ->
      In (Query qa) ["event_name = ?"; "timestamp >= ?"; "timestamp <= ?"]%string)
  /\ group q = match bucket with Some e => [expr e []] | None => [] end
  /\ order q = match bucket with Some _ => [expr "bucket ASC" []] | None => [] end
  /\ (bucket <> None <-> exists g, mr_GroupBy request = Some g /\ allowed g).
Proof.
  intros q bucket. subst q. rewrite metricsQuery_clauses.
  cbn [table columns where_ group order]. fold bucket.
  split; [reflexivity|]. split; [reflexivity|].
  split; [|split; [|split; [|split; [|split; [|split]]]]]; try reflexivity.
  - intros args.
    destruct (mr_EventName request) as [name|];
      [destruct (String.eqb_spec name "") as [->|Hne]|];
      destruct (mr_From request), (mr_To request); cbn;
      (split; [intros H; repeat (destruct H as [H|H]; try discriminate H);
               try contradiction;
               injection H as <-; eauto
              | intros (n & [= <-] & Hn & ->); try (now elim Hn); auto]).
  - intros args.
    destruct (mr_EventName request) as [name|];
      [destruct (String.eqb name "")|];
      destruct (mr_From request), (mr_To request); cbn;
      (split; [intros H; repeat (destruct H as [H|H]; try discriminate H);
               try contradiction;
               injection H as <-; eauto
              | intros (n & [= <-] & ->); auto]).
  - intros args.
    destruct (mr_EventName request) as [name|];
      [destruct (String.eqb name "")|];
      destruct (mr_From request), (mr_To request); cbn;
      (split; [intros H; repeat (destruct H as [H|H]; try discriminate H);
               try contradiction;
               injection H as <-; eauto
              | intros (n & [= <-] & ->); auto]).
  - intros qa.
    destruct (mr_EventName request) as [name|];
      [destruct (String.eqb name "")|];
      destruct (mr_From request), (mr_To request); cbn;
      intuition (subst; cbn; auto).
  - subst bucket. unfold bucketExpr.
    destruct (mr_GroupBy request) as [g|].
    + split.
      * intros H. exists g. split; [reflexivity|]. apply assoc_In.
        destruct (assoc allowlist g); [eauto | now elim H].
      * intros (g' & [= <-] & Ha). apply assoc_In in Ha as [x ->]. discriminate.
    + split; [intros H; now elim H | intros (g' & H & _); discriminate].
Qed.

(** C4. For every metric request (its event_name, if present, is not
    empty) the planner selects from [events FINAL] the bucket,
    [count()] as total_events and [uniqExact(user_id)] as unique_users;
    the [event_name =], [timestamp >=] and [timestamp <=] filters are
    each in the query exactly when the corresponding field is present,
    and the query has no other filter; GROUP BY the bucket expression
    and ORDER BY bucket ASC are in the query exactly when [group_by]
    maps through the allowlist. *)
Theorem metricsQuery_plan (request : MetricRequest) :
  mr_EventName request <> Some ""%string ->
  let q := metricsQuery request in
  let bucket := bucketExpr (mr_GroupBy request) in
  table q = [expr "events FINAL" []]
  /\ columns q
     = [ match bucket with
         | Some e => expr "? AS bucket" [ch_Safe e]
         | None => expr "'total' AS bucket" []
         end;
         expr "count() AS total_events" [];
         expr "uniqExact(user_id) AS unique_users" [] ]
  /\ (forall args, In (expr "event_name = ?" args) (where_ q)
      <-> exists name, mr_EventName request = Some name
                       /\ args = [argString name])
  /\ (forall args, In (expr "timestamp >= ?" args) (where_ q)
      <-> exists from, mr_From request = Some from
                       /\ args = [argTime (time.Unix from 0)])
  /\ (forall args, In (expr "timestamp <= ?" args) (where_ q)
      <-> exists to, mr_To request = Some to
                     /\ args = [argTime (time.Unix to 0)])
  /\ (forall qa, In qa (where_ q) ->
      In (Query qa) ["event_name = ?"; "timestamp >= ?"; "timestamp <= ?"]%string)
  /\ group q = match bucket with Some e => [expr e []] | None => [] end
  /\ order q = match bucket with Some _ => [expr "bucket ASC" []] | None => [] end
  /\ (bucket <> None <-> exists g, mr_GroupBy request = Some g /\ allowed g).
Proof.
  intros Hname q bucket.
  destruct (metricsQuery_guards request)
    as (Ht & Hc & He & Hf & Hto & Hw & Hg & Ho & Hb).
  fold q in Ht, Hc, He, Hf, Hto, Hw, Hg, Ho. fold bucket in Hc, Hg, Ho, Hb.
  split; [exact Ht|]. split; [exact Hc|].
  split; [|split; [exact Hf|]; split; [exact Hto|]; split; [exact Hw|];
           split; [exact Hg|]; split; [exact Ho | exact Hb]].
  intros args. rewrite He. split.
  - intros (name & E & _ & A). eauto.
  - intros (name & E & A). exists name. split; [exact E|].
    split; [|exact A]. intros ->. exact (Hname E).
Qed.

Lemma metricsQuery_plan_witness :
  let request := {| mr_EventName := Some "purchase"%string;
                    mr_From := Some 1700000000; mr_To := None;
                    mr_GroupBy := Some "day"%string |} in
  let q := metricsQuery request in
  mr_EventName request <> Some ""%string
  /\ (forall args, In (expr "event_name = ?" args) (where_ q)
      <-> exists name, mr_EventName request = Some name
                       /\ args = [argString name])
  /\ (forall args, In (expr "timestamp <= ?" args) (where_ q)
      <-> exists to, mr_To request = Some to
                     /\ args = [argTime (time.Unix to 0)]).
Proof.
  intros request q.
  assert (Hname : mr_EventName request <> Some ""%string) by discriminate.
  split; [exact Hname|].
  pose proof (metricsQuery_plan request Hname) as P. cbv zeta in P.
  split; [apply P | apply P].
Defined.

(** The second guard of the event_name filter: handed a request whose
    event_name is present and empty, which no request from the handler
    and no validated request is, the planner leaves the filter out. *)
Lemma metricsQuery_empty_name_unfiltered :
  let request := {| mr_EventName := Some ""%string; mr_From := None;
                    mr_To := None; mr_GroupBy := None |} in
  mr_EventName request = Some ""%string
  /\ where_ (metricsQuery request) = [].
Proof.
  cbv zeta. split; reflexivity.
Qed.

End Planner.

(** ** Request validation *)

Section Validation.
Import validations notions.

Lemma blank_false (s : string) :
  blank s = false <-> gostrings.TrimSpace s <> ""%string.
Proof. unfold blank. apply String.eqb_neq. Qed.

Lemma rangeBlank_None (xs : list string) (err : error) :
  rangeBlank xs err = None
  <-> Forall (fun x => gostrings.TrimSpace x <> ""%string) xs.
Proof.
  induction xs as [|x xs IH]; cbn [rangeBlank].
  - split; [constructor | reflexivity].
  - destruct (blank x) eqn:B.
    + split; [discriminate|]. intros H. inversion H as [|? ? Hx _]; subst.
      apply blank_false in Hx. congruence.
    + rewrite IH. split.
      * intros H. constructor; [now apply blank_false | assumption].
      * intros H. now inversion H.
Qed.

Lemma rangeBlank_Some (xs : list string) (err e : error) :
  rangeBlank xs err = Some e -> e = err.
Proof.
  induction xs as [|x xs IH]; cbn [rangeBlank]; [discriminate|].
  destruct (blank x); [congruence | exact IH].
Qed.

Lemma keys_Forall (metadata : gmap string any) (P : string -> Prop) :
  Forall P (map fst (map_to_list metadata))
  <-> forall key, is_Some (metadata !! key) -> P key.
Proof.
  rewrite Forall_forall. split.
  - intros H key [v Hv]. apply H.
    apply elem_of_map_to_list in Hv.
    apply (list_elem_of_fmap_2 fst) in Hv. exact Hv.
  - intros H key Hin. apply list_elem_of_fmap in Hin as [[k v] [-> Hkv]].
    apply elem_of_map_to_list in Hkv. apply H. cbn. eauto.
Qed.

(** Every refusal is a 400. *)
Lemma ValidateEventRequest_400 (now : Z) (request : EventRequest) (err : error) :
  ValidateEventRequest now request = Some err ->
  exists message, err = fiber_NewError StatusBadRequest message.
Proof.
  unfold ValidateEventRequest.
  repeat match goal with
         | |- context [if ?c then _ else _] => destruct c
         | |- Some _ = Some _ -> _ => intros [= <-]; eauto
         end.
  destruct (Tags request) as [tags|]; [|intros [= <-]; eauto].
  destruct (rangeBlank tags _) as [e|] eqn:R.
  - apply rangeBlank_Some in R as ->. intros [= <-]; eauto.
  - destruct (Metadata request) as [metadata|]; [|intros [= <-]; eauto].
    intros R'. apply rangeBlank_Some in R' as ->. eauto.
Qed.

(** What [ValidateEventRequest] accepts: event_name and channel not
    blank after trimming, a positive timestamp not in the future,
    user_id and campaign_id not the empty string, tags and metadata
    present, no tag and no metadata key blank after trimming. *)
Lemma ValidateEventRequest_accepts (now : Z) (request : EventRequest) :
  ValidateEventRequest now request = None <-> acceptable now request.
Proof.
  unfold ValidateEventRequest, acceptable.
  destruct (blank (EventName request)) eqn:B1.
  { split; [discriminate|]. intros (H & _). apply blank_false in H. congruence. }
  apply blank_false in B1.
  destruct (blank (Channel request)) eqn:B2.
  { split; [discriminate|]. intros (_ & H & _). apply blank_false in H. congruence. }
  apply blank_false in B2.
  destruct (Z.leb_spec (Timestamp request) 0) as [T1|T1].
  { split; [discriminate|]. intros (_ & _ & H & _). lia. }
  destruct (Z.gtb_spec (Timestamp request) now) as [T2|T2].
  { split; [discriminate|]. intros (_ & _ & H & _). lia. }
  destruct (String.eqb_spec (UserID request) "") as [U|U].
  { split; [discriminate|]. intros (_ & _ & _ & H & _). contradiction. }
  destruct (String.eqb_spec (CampaignID request) "") as [C|C].
  { split; [discriminate|]. intros (_ & _ & _ & _ & H & _). contradiction. }
  destruct (Tags request) as [tags|].
  2:{ split; [discriminate|]. intros (_ & _ & _ & _ & _ & (t & H & _) & _).
      discriminate. }
  destruct (rangeBlank tags _) as [e|] eqn:R.
  { split; [discriminate|].
    intros (_ & _ & _ & _ & _ & (t & [= <-] & H) & _).
    apply rangeBlank_None with (err := fiber_NewError StatusBadRequest "tags cannot be empty") in H.
    congruence. }
  apply rangeBlank_None in R.
  destruct (Metadata request) as [metadata|].
  2:{ split; [discriminate|]. intros (_ & _ & _ & _ & _ & _ & (m & H & _)).
      discriminate. }
  rewrite rangeBlank_None, keys_Forall.
  split.
  - intros H. repeat split; try assumption; try lia; eauto.
  - intros (_ & _ & _ & _ & _ & _ & (m & [= <-] & H)). exact H.
Qed.

(** C8, at a failing input. A request whose user_id is one space (and
    one whose campaign_id is one space), valid in every other respect:
    the field is empty after trimming, and yet [ValidateEventRequest]
    accepts the request. *)
Theorem ValidateEventRequest_blank_id_accepted :
  let spaced_user :=
    {| EventName := "purchase"; Channel := "web"; CampaignID := "c";
       UserID := " "; Timestamp := 1700000000; Tags := Some [];
       Metadata := Some ∅ |} in
  let spaced_campaign :=
    {| EventName := "purchase"; Channel := "web"; CampaignID := " ";
       UserID := "user_1"; Timestamp := 1700000000; Tags := Some [];
       Metadata := Some ∅ |} in
  gostrings.TrimSpace (UserID spaced_user) = ""%string
  /\ ValidateEventRequest 1700000100 spaced_user = None
  /\ gostrings.TrimSpace (CampaignID spaced_campaign) = ""%string
  /\ ValidateEventRequest 1700000100 spaced_campaign = None.
Proof. cbv zeta. repeat split; vm_compute; reflexivity. Qed.

End Validation.

(** ** Scenarios *)

Section Scenarios.
Import database services notions.

Let e1 := samples.event "purchase" "user_1".
Let e2 := samples.event "purchase" "user_2".
Let e3 := samples.event "view" "user_3".

Let env (redis : ClickHouseRedis) (db : ClickHouseDB) : Env :=
  {| env_redis := redis; env_db := db; env_now := samples.clock |}.

(** The cache key of the event of scenario S1. *)
Example cacheKey_purchase :
  cacheKey e1 = "clickhouse_event:purchase|user_1|1700000000|web"%string.
Proof. reflexivity. Qed.

Example TrimSpace_samples :
  gostrings.TrimSpace "  user_1 " = "user_1"%string
  /\ gostrings.TrimSpace (gostrings.of_bytes [194; 160; 9; 226; 128; 131]%N)
     = ""%string
  /\ gostrings.TrimSpace "a b" = "a b"%string.
Proof. repeat split; vm_compute; reflexivity. Qed.

(** S3: of three events the second is in the cache; the writer receives
    the other two and the three count as successes. *)
Example bulk_one_seen :
  PostEventsBulk samples.marshal (env (samples.cacheWith [e2]) samples.storeUp)
    {| Events := [e1; e2; e3] |}
  = ({| Success := true; Message := "Bulk events posted successfully";
        TotalCount := 3; SuccessCount := 3; FailureCount := 0 |},
     None,
     [callSaveEvents [e1; e3] None; goSetMultipleEventsProcessed [e1; e3]]).
Proof. vm_compute. reflexivity. Qed.

(** The store refuses the insert: the three events count as failures. *)
Example bulk_store_down :
  fst (PostEventsBulk samples.marshal (env samples.cacheDown samples.storeDown)
         {| Events := [e1; e2; e3] |})
  = ({| Success := false;
        Message := "Failed to save bulk events: failed to columnar insert events: connection reset";
        TotalCount := 3; SuccessCount := 0; FailureCount := 3 |},
     Some (fmt_Errorf_w "failed to columnar insert events: "
             (errors_New "connection reset"))).
Proof. vm_compute. reflexivity. Qed.

(** With the cache down the filter lets every event through. *)
Example filter_cache_down :
  EventBatcher_.filterProcessedEvents samples.cacheDown [e1; e2; e1] = [e1; e2; e1].
Proof. reflexivity. Qed.

(** A run of the worker with batch size 2: three events are received,
    the first two are flushed when the batch fills up, the third one at
    shutdown; the second event was already in the cache. *)
Example worker_run :
  let up := env (samples.cacheWith [e2]) samples.storeUp in
  worker samples.marshal
    [blocked; recvEvent up; recvEvent up; recvEvent up; ctxDone up up]
    (samples.queue 8 [e1; e2; e3] false)
  = (samples.queue 8 [] false,
     [callSaveEvents [e1] None; goSetMultipleEventsProcessed [e1];
      callSaveEvents [e3] None; goSetMultipleEventsProcessed [e3]],
     true).
Proof. vm_compute. reflexivity. Qed.

(** A batch whose events are all in the cache is dropped without a call
    of the writer. *)
Example worker_all_seen :
  let up := env (samples.cacheWith [e1; e2]) samples.storeUp in
  snd (fst (worker samples.marshal [recvEvent up; recvEvent up; tickerC up]
              (samples.queue 8 [e1; e2] false)))
  = [].
Proof. vm_compute. reflexivity. Qed.

Example validate_samples :
  validations.ValidateEventRequest 1700000100 e1 = None
  /\ validations.ValidateEventRequest 1600000000 e1
     = Some (fiber_NewError 400 "timestamp cannot be in the future")
  /\ validations.ValidateEventRequest 1700000100 (samples.purchase "c" None (Some ∅))
     = Some (fiber_NewError 400 "tags is required")
  /\ validations.ValidateEventRequest 1700000100
       (samples.purchase "c" (Some ["vip"; "  "]%string) (Some ∅))
     = Some (fiber_NewError 400 "tags cannot be empty").
Proof. repeat split; vm_compute; reflexivity. Qed.

End Scenarios.

(** ** Validation of metric and bulk requests *)

Section MoreValidation.
Import database validations notions.

Lemma blank_empty : blank "" = true.
Proof. reflexivity. Qed.

Lemma ValidateMetricRequest_cases (nowFrom nowTo : Z) (request : MetricRequest) :
  (ValidateMetricRequest nowFrom nowTo request = None
   <-> metricAcceptable nowFrom nowTo request)
  /\ (forall err, ValidateMetricRequest nowFrom nowTo request = Some err ->
      exists message, err = fiber_NewError StatusBadRequest message).
Proof.
  unfold ValidateMetricRequest, metricAcceptable.
  destruct request as [name from to g]. cbn [mr_EventName mr_From mr_To mr_GroupBy].
  split.
  - destruct from as [from|], to as [to|];
      repeat match goal with
             | |- context [Z.leb ?a ?b] => destruct (Z.leb_spec a b)
             | |- context [Z.gtb ?a ?b] => destruct (Z.gtb_spec a b)
             end;
      try (split; [discriminate|];
           intros (Hf & Ht & Ho & _);
           try specialize (Hf _ eq_refl); try specialize (Ht _ eq_refl);
           try specialize (Ho _ _ eq_refl eq_refl); lia);
      (destruct g as [g|]; [destruct (blank g) eqn:Bg|];
       [split; [discriminate|];
        intros (_ & _ & _ & Hg & _); specialize (Hg _ eq_refl);
        apply blank_false in Hg; congruence | ..];
       (destruct name as [name|]; [destruct (blank name) eqn:Bn|];
        [split; [discriminate|];
         intros (_ & _ & _ & _ & Hn); specialize (Hn _ eq_refl);
         apply blank_false in Hn; congruence | ..];
        (split; [intros _|reflexivity];
         repeat split; intros; simplify_eq; try lia;
         now apply blank_false))).
  - intros err.
    repeat match goal with
           | |- context [match ?o with Some _ => _ | None => _ end] =>
               is_var o; destruct o
           | |- context [if ?c then _ else _] => destruct c
           end;
      try discriminate; intros [= <-]; eauto.
Qed.

(** X1. [ValidateMetricRequest] accepts a request exactly when [from] and
    [to], where given, are positive and not in the future, [from] is
    not after [to], and [group_by] and [event_name], where given, are
    not blank after trimming; every refusal is a 400. *)
Theorem ValidateMetricRequest_accepts (nowFrom nowTo : Z) (request : MetricRequest) :
  (ValidateMetricRequest nowFrom nowTo request = None
   <-> metricAcceptable nowFrom nowTo request)
  /\ (forall err, ValidateMetricRequest nowFrom nowTo request = Some err ->
      exists message, err = fiber_NewError StatusBadRequest message).
Proof. apply ValidateMetricRequest_cases. Qed.

(** X2. On a metric request that passed validation, each filter of the
    query is there exactly when its field is present: the guard on the
    empty event_name never applies. *)
Theorem validated_filters_as_stated (nowFrom nowTo : Z) (request : MetricRequest) :
  ValidateMetricRequest nowFrom nowTo request = None ->
  eventNameFilterAsStated request
  /\ ((exists args, In (expr "timestamp >= ?" args) (where_ (metricsQuery request)))
      <-> mr_From request <> None)
  /\ ((exists args, In (expr "timestamp <= ?" args) (where_ (metricsQuery request)))
      <-> mr_To request <> None).
Proof.
  intros Hv. apply ValidateMetricRequest_cases in Hv.
  destruct Hv as (_ & _ & _ & _ & Hn).
  unfold eventNameFilterAsStated. rewrite metricsQuery_clauses.
  cbn [where_].
  assert (Hname : forall name, mr_EventName request = Some name ->
                               String.eqb name "" = false).
  { intros name E. apply String.eqb_neq. intros ->. now apply (Hn _ E). }
  destruct (mr_EventName request) as [name|];
    [rewrite (Hname name eq_refl)|];
    destruct (mr_From request) as [from|], (mr_To request) as [to|];
    cbn [app In];
    (split; [|split]);
    (split;
     [ intros [args H] Hnone;
       repeat (destruct H as [H|H]; try discriminate H); try discriminate Hnone;
       try contradiction
     | intros Hp; try (now elim Hp); eexists; unfold expr; eauto 6 ]).
Qed.

Lemma validated_filters_as_stated_witness :
  let request := {| mr_EventName := Some "purchase"%string;
                    mr_From := Some 1700000000; mr_To := None;
                    mr_GroupBy := Some "channel"%string |} in
  eventNameFilterAsStated request.
Proof.
  intros request.
  apply (validated_filters_as_stated 1700000100 1700000100 request).
  vm_compute. reflexivity.
Defined.

Lemma rangeValidate_None (now : nat -> Z) (i : nat) (events : list EventRequest) :
  rangeValidate now i events = None
  <-> forall k event, events !! k = Some event -> acceptable (now (i + k)%nat) event.
Proof.
  revert i. induction events as [|e events IH]; intros i; cbn [rangeValidate].
  - split; [intros _ k event H; discriminate | reflexivity].
  - destruct (ValidateEventRequest (now i) e) as [err|] eqn:V.
    + split; [discriminate|]. intros H.
      specialize (H 0%nat e eq_refl). rewrite Nat.add_0_r in H.
      apply ValidateEventRequest_accepts in H. congruence.
    + rewrite IH. apply ValidateEventRequest_accepts in V. split.
      * intros H [|k] event Hk.
        -- injection Hk as <-. now rewrite Nat.add_0_r.
        -- rewrite Nat.add_succ_r. apply (H k event Hk).
      * intros H k event Hk. specialize (H (S k) event Hk).
        now rewrite Nat.add_succ_r in H.
Qed.

(** X3. [ValidateBulkEventRequest] accepts exactly the requests that
    carry an events array of 1 to 10000 events each of which passes the
    validation of a single event; every refusal is a 400. *)
Theorem ValidateBulkEventRequest_accepts (now : nat -> Z)
    (request : option (option (list EventRequest))) :
  (ValidateBulkEventRequest now request = None
   <-> exists events,
         request = Some (Some events)
         /\ 1 <= Z.of_nat (length events) <= MaxBulkEventCount
         /\ forall k event, events !! k = Some event ->
                            ValidateEventRequest (now k) event = None)
  /\ (forall err, ValidateBulkEventRequest now request = Some err ->
      exists message, err = fiber_NewError StatusBadRequest message).
Proof.
  unfold ValidateBulkEventRequest, MaxBulkEventCount. split.
  - destruct request as [[events|]|].
    + destruct (Nat.eqb_spec (length events) 0) as [E|E].
      { split; [discriminate|]. intros (ev & [= <-] & H & _). lia. }
      destruct (Z.gtb_spec (Z.of_nat (length events)) 10000) as [G|G].
      { split; [discriminate|]. intros (ev & [= <-] & H & _). lia. }
      rewrite rangeValidate_None. split.
      * intros H. exists events. repeat split; try lia.
        intros k event Hk. apply ValidateEventRequest_accepts.
        apply (H k event Hk).
      * intros (ev & [= <-] & _ & H) k event Hk.
        apply ValidateEventRequest_accepts. apply (H k event Hk).
    + split; [discriminate|]. intros (ev & H & _). discriminate.
    + split; [discriminate|]. intros (ev & H & _). discriminate.
  - intros err. destruct request as [[events|]|]; try (intros [= <-]; eauto).
    destruct (length events =? 0)%nat; [intros [= <-]; eauto|].
    destruct (Z.of_nat (length events) >? 10000); [intros [= <-]; eauto|].
    generalize 0%nat. induction events as [|e events IH]; intros i; cbn [rangeValidate].
    + discriminate.
    + destruct (ValidateEventRequest (now i) e); [intros [= <-]; eauto | apply IH].
Qed.

Lemma rangeValidate_Some (now : nat -> Z) (i : nat) (events : list EventRequest)
    (err : error) :
  rangeValidate now i events = Some err ->
  exists k event cause,
    events !! k = Some event
    /\ ValidateEventRequest (now (i + k)%nat) event = Some cause
    /\ (forall j earlier, (j < k)%nat -> events !! j = Some earlier ->
        ValidateEventRequest (now (i + j)%nat) earlier = None)
    /\ err = fiber_NewError StatusBadRequest
               ("validation failed for event at index "
                  +:+ strconv.FormatInt (Z.of_nat (i + k)) +:+ ": " +:+ Error cause).
Proof.
  revert i. induction events as [|e events IH]; intros i; cbn [rangeValidate].
  - discriminate.
  - destruct (ValidateEventRequest (now i) e) as [cause|] eqn:V.
    + intros [= <-]. exists 0%nat, e, cause. rewrite Nat.add_0_r.
      repeat split; [assumption|]. intros j earlier Hj. lia.
    + intros H. apply IH in H as (k & event & cause & Hk & Hc & Hbefore & ->).
      exists (S k), event, cause. rewrite <- Nat.add_succ_comm.
      repeat split; try assumption.
      intros [|j] earlier Hj Hl.
      * injection Hl as <-. now rewrite Nat.add_0_r.
      * rewrite <- Nat.add_succ_comm. apply (Hbefore j earlier); [lia | assumption].
Qed.

(** X4. When [ValidateBulkEventRequest] refuses a request of 1 to 10000
    events, the error names the index of the first event that fails the
    validation of a single event, with that event's error text. *)
Theorem ValidateBulkEventRequest_first_invalid (now : nat -> Z)
    (events : list EventRequest) (err : error) :
  1 <= Z.of_nat (length events) <= MaxBulkEventCount ->
  ValidateBulkEventRequest now (Some (Some events)) = Some err ->
  exists k event cause,
    events !! k = Some event
    /\ ValidateEventRequest (now k) event = Some cause
    /\ (forall j earlier, (j < k)%nat -> events !! j = Some earlier ->
        ValidateEventRequest (now j) earlier = None)
    /\ Error err = ("validation failed for event at index "
                      +:+ strconv.FormatInt (Z.of_nat k) +:+ ": " +:+ Error cause)%string.
Proof.
  unfold ValidateBulkEventRequest, MaxBulkEventCount. intros Hlen.
  destruct (Nat.eqb_spec (length events) 0) as [E|E]; [lia|].
  destruct (Z.gtb_spec (Z.of_nat (length events)) 10000) as [G|G]; [lia|].
  intros H. apply rangeValidate_Some in H as (k & event & cause & Hk & Hc & Hb & ->).
  exists k, event, cause. cbn [Nat.add] in *. repeat split; assumption.
Qed.

Lemma ValidateBulkEventRequest_first_invalid_witness :
  let good := samples.event "purchase" "user_1" in
  let bad := samples.event "purchase" "" in
  exists k event cause,
    [good; bad; bad] !! k = Some event
    /\ ValidateEventRequest 1700000100 event = Some cause
    /\ (forall j earlier, (j < k)%nat -> [good; bad; bad] !! j = Some earlier ->
        ValidateEventRequest 1700000100 earlier = None)
    /\ Error (fiber_NewError StatusBadRequest
                "validation failed for event at index 1: user_id is required")
       = ("validation failed for event at index "
            +:+ strconv.FormatInt (Z.of_nat k) +:+ ": " +:+ Error cause)%string.
Proof.
  intros good bad.
  apply (ValidateBulkEventRequest_first_invalid (fun _ => 1700000100)
           [good; bad; bad]).
  - unfold MaxBulkEventCount. cbn. lia.
  - vm_compute. reflexivity.
Defined.

End MoreValidation.

(** ** Fingerprints and the cache *)

Section Cache.
Import database services notions.

Lemma append_sep_inj (a a' r r' : string) :
  hasSeparator a = false -> hasSeparator a' = false ->
  (a +:+ "|" +:+ r = a' +:+ "|" +:+ r')%string -> a = a' /\ r = r'.
Proof.
  revert a'. induction a as [|c a IH]; intros [|c' a'] Ha Ha' H; cbn in *.
  - now injection H.
  - injection H as <- _. cbn in Ha'. discriminate.
  - injection H as -> _. cbn in Ha. discriminate.
  - injection H as <- H.
    apply orb_false_iff in Ha as [_ Ha]. apply orb_false_iff in Ha' as [_ Ha'].
    destruct (IH a' Ha Ha' H) as [-> ->]. now split.
Qed.

Lemma string_of_uint_no_sep (d : Decimal.uint) :
  hasSeparator (NilZero.string_of_uint d) = false.
Proof.
  assert (H : forall u, hasSeparator (NilEmpty.string_of_uint u) = false)
    by (induction u; cbn; auto).
  destruct d; try reflexivity; apply H.
Qed.

Lemma FormatInt_no_sep (i : Z) : hasSeparator (strconv.FormatInt i) = false.
Proof.
  unfold strconv.FormatInt, NilZero.string_of_int.
  destruct (Z.to_int i); cbn; apply string_of_uint_no_sep.
Qed.

(** X5. Among events whose event_name and user_id hold no [|], the
    fingerprint identifies the four fields: equal fingerprints mean
    equal event_name, user_id, timestamp and channel. *)
Theorem GetUniqueKey_inj (e1 e2 : EventRequest) :
  hasSeparator (EventName e1) = false -> hasSeparator (UserID e1) = false ->
  hasSeparator (EventName e2) = false -> hasSeparator (UserID e2) = false ->
  GetUniqueKey e1 = GetUniqueKey e2 ->
  EventName e1 = EventName e2 /\ UserID e1 = UserID e2
  /\ Timestamp e1 = Timestamp e2 /\ Channel e1 = Channel e2.
Proof.
  intros Hn1 Hu1 Hn2 Hu2 H. unfold GetUniqueKey in H.
  apply append_sep_inj in H as [En H]; [|assumption..].
  apply append_sep_inj in H as [Eu H]; [|assumption..].
  apply append_sep_inj in H as [Et Ec]; [|apply FormatInt_no_sep..].
  apply FormatInt_inj in Et. auto.
Qed.

Lemma GetUniqueKey_inj_witness :
  let e := samples.event "purchase" "user_1" in
  EventName e = EventName (samples.purchase "summer" None None)
  /\ UserID e = UserID (samples.purchase "summer" None None)
  /\ Timestamp e = Timestamp (samples.purchase "summer" None None)
  /\ Channel e = Channel (samples.purchase "summer" None None).
Proof.
  intros e.
  apply (GetUniqueKey_inj e (samples.purchase "summer" None None));
    reflexivity.
Defined.

Lemma cacheKey_inj (e1 e2 : EventRequest) :
  cacheKey e1 = cacheKey e2 <-> GetUniqueKey e1 = GetUniqueKey e2.
Proof.
  unfold cacheKey, RedisKeyPrefix. split; [|congruence].
  cbn. intros H. now repeat injection H as H.
Qed.

Lemma marked_lookup (requests : list EventRequest) (m : gmap string string)
    (e : EventRequest) :
  fold_left (fun acc request =>
               <[RedisKeyPrefix +:+ GetUniqueKey request := "1"%string]> acc)
    requests m !! cacheKey e
  = if bool_decide (GetUniqueKey e ∈ map GetUniqueKey requests)
    then Some "1"%string else m !! cacheKey e.
Proof.
  revert m. induction requests as [|r requests IH]; intros m; cbn [fold_left map].
  - rewrite bool_decide_eq_false_2; [reflexivity | intros H; inversion H].
  - rewrite IH. fold (cacheKey r).
    destruct (decide (GetUniqueKey e ∈ map GetUniqueKey requests)) as [Hin|Hin].
    + rewrite !bool_decide_eq_true_2; [reflexivity | now right | assumption].
    + rewrite (bool_decide_eq_false_2 _ Hin).
      destruct (decide (GetUniqueKey r = GetUniqueKey e)) as [Heq|Hne].
      * rewrite bool_decide_eq_true_2 by (rewrite Heq; left).
        apply cacheKey_inj in Heq. rewrite Heq. apply lookup_insert_eq.
      * rewrite bool_decide_eq_false_2.
        2:{ intros H. inversion H; subst; [congruence | contradiction]. }
        apply lookup_insert_ne. intros Hk. apply cacheKey_inj in Hk. contradiction.
Qed.

(** The expiry sent to the server is positive exactly when the
    duration is. *)
Lemma formatSec_pos (dur : time.Duration) : 0 < formatSec dur <-> 0 < dur.
Proof.
  unfold formatSec, time.Second.
  destruct (Z.ltb_spec 0 dur) as [Hp|Hn]; cbn [andb].
  - destruct (Z.ltb_spec dur 1000000000) as [Hs|Hs]; [lia|].
    rewrite Z.quot_div_nonneg by lia.
    split; [lia|]. intros _. apply Z.div_str_pos. lia.
  - split; [|lia]. intros H. exfalso.
    assert (Z.quot dur 1000000000 <= 0); [|lia].
    rewrite <- (Z.opp_involutive dur), Z.quot_opp_l by lia.
    assert (0 <= Z.quot (- dur) 1000000000); [apply Z.quot_pos; lia | lia].
Qed.

(** The cache duration in range: from 1 ms to 9223372036854 ms the
    product does not wrap. *)
Lemma getExpirationDuration_in_range (c : redisServer) (ttl : Z) :
  0 < ttl <= 9223372036854 ->
  getExpirationDuration {| Client := c; expirationMilliseconds := ttl |}
  = ttl * 1000000.
Proof.
  intros H. unfold getExpirationDuration, time.mul, time.int64, time.Millisecond.
  cbn [expirationMilliseconds].
  destruct (Z.leb_spec ttl 0); [lia|].
  change (2 ^ 63) with 9223372036854775808.
  change (2 ^ 64) with 18446744073709551616.
  rewrite Z.mod_small; lia.
Qed.

(** The cache duration out of range: not positive, or wrapped to a
    negative count of nanoseconds. *)
Lemma getExpirationDuration_out_of_range (c : redisServer) (ttl : Z) :
  ttl <= 0 \/ 9223372036854 < ttl <= 18446744073709 ->
  getExpirationDuration {| Client := c; expirationMilliseconds := ttl |} <= 0.
Proof.
  intros H. unfold getExpirationDuration, time.mul, time.int64, time.Millisecond.
  cbn [expirationMilliseconds].
  destruct (Z.leb_spec ttl 0); [lia|].
  change (2 ^ 63) with 9223372036854775808.
  change (2 ^ 64) with 18446744073709551616.
  replace (ttl * 1000000 + 9223372036854775808)
    with (ttl * 1000000 - 9223372036854775808 + 1 * 18446744073709551616) by lia.
  rewrite Z.mod_add by lia. rewrite Z.mod_small; lia.
Qed.

Lemma pipeline_of_requests (d : time.Duration) (requests : list EventRequest)
    (pipe : Pipeliner) :
  fold_left
    (fun pipe request =>
       let key := RedisKeyPrefix +:+ GetUniqueKey request in
       pipe_SetEx pipe key "1" d)
    requests pipe
  = pipe ++ map (fun request => (cacheKey request, "1"%string, d)) requests.
Proof.
  revert pipe. induction requests as [|x requests IH]; intros pipe;
    cbn [fold_left map].
  - now rewrite app_nil_r.
  - rewrite IH. unfold pipe_SetEx, cacheKey. now rewrite <- app_assoc.
Qed.

Lemma replies_accepted (d : time.Duration) (requests : list EventRequest)
    (m : gmap string string) (err : option error) :
  0 < d ->
  fold_left
    (fun '(acc, err) '(key, value, expiration) =>
       let '(acc', e) := SETEX acc key (formatSec expiration) value in
       (acc', firstErr err e))
    (map (fun request => (cacheKey request, "1"%string, d)) requests) (m, err)
  = (fold_left (fun acc request =>
                  <[RedisKeyPrefix +:+ GetUniqueKey request := "1"%string]> acc)
       requests m,
     err).
Proof.
  intros Hd. apply (proj2 (formatSec_pos d)) in Hd.
  revert m err. induction requests as [|x requests IH]; intros m err;
    cbn [fold_left map]; [reflexivity|].
  unfold SETEX at 2. destruct (Z.leb_spec (formatSec d) 0) as [Hle|_]; [lia|].
  replace (firstErr err None) with err by now destruct err.
  apply IH.
Qed.

Lemma replies_refused (d : time.Duration) (requests : list EventRequest)
    (m : gmap string string) (err : option error) :
  d <= 0 ->
  fold_left
    (fun '(acc, err) '(key, value, expiration) =>
       let '(acc', e) := SETEX acc key (formatSec expiration) value in
       (acc', firstErr err e))
    (map (fun request => (cacheKey request, "1"%string, d)) requests) (m, err)
  = (m, match requests with
        | [] => err
        | _ :: _ => firstErr err (Some invalidExpire)
        end).
Proof.
  intros Hd.
  assert (Hs : formatSec d <= 0).
  { destruct (Z.le_gt_cases (formatSec d) 0) as [|Hp]; [assumption|].
    apply (proj1 (formatSec_pos d)) in Hp. lia. }
  revert m err. induction requests as [|x requests IH]; intros m err;
    cbn [fold_left map]; [reflexivity|].
  unfold SETEX at 2. destruct (Z.leb_spec (formatSec d) 0) as [_|Hgt]; [|lia].
  rewrite IH. destruct requests; [reflexivity|]. now destruct err.
Qed.

(** With a positive duration every [SetEx] of the pipeline is taken. *)
Lemma SetMultipleEventsProcessed_accepted (keys : gmap string string) (ttl : Z)
    (requests : list EventRequest) :
  let r := {| Client := redisUp keys; expirationMilliseconds := ttl |} in
  0 < getExpirationDuration r ->
  SetMultipleEventsProcessed r requests
  = (redisUp
       (fold_left (fun acc request =>
                     <[RedisKeyPrefix +:+ GetUniqueKey request := "1"%string]> acc)
          requests keys),
     None).
Proof.
  intros r Hd. unfold SetMultipleEventsProcessed.
  rewrite pipeline_of_requests. cbn [app]. unfold pipe_Exec.
  destruct requests as [|x requests]; [reflexivity|].
  cbn [map Client r]. rewrite <- (map_cons (fun request => (cacheKey request, "1"%string, _))).
  fold r. rewrite (replies_accepted _ _ _ _ Hd). reflexivity.
Qed.

(** With a duration that is not positive the server refuses every
    [SetEx]: [Exec] returns its error and no key is set. *)
Lemma SetMultipleEventsProcessed_refused (keys : gmap string string) (ttl : Z)
    (requests : list EventRequest) :
  let r := {| Client := redisUp keys; expirationMilliseconds := ttl |} in
  getExpirationDuration r <= 0 -> requests <> [] ->
  SetMultipleEventsProcessed r requests = (redisUp keys, Some invalidExpire).
Proof.
  intros r Hd Hne. unfold SetMultipleEventsProcessed.
  rewrite pipeline_of_requests. cbn [app]. unfold pipe_Exec.
  destruct requests as [|x requests]; [now elim Hne|].
  cbn [map Client r]. rewrite <- (map_cons (fun request => (cacheKey request, "1"%string, _))).
  fold r. rewrite (replies_refused _ _ _ _ Hd). reflexivity.
Qed.

Lemma IsEventProcessed_afterMarking (keys : gmap string string) (ttl : Z)
    (requests : list EventRequest) (e : EventRequest) :
  let r := {| Client := redisUp keys; expirationMilliseconds := ttl |} in
  0 < getExpirationDuration r ->
  IsEventProcessed (afterMarking r requests) e
  = (bool_decide (GetUniqueKey e ∈ map GetUniqueKey requests)
     || fst (IsEventProcessed r e), None).
Proof.
  intros r Hd. subst r.
  unfold afterMarking. rewrite (SetMultipleEventsProcessed_accepted keys ttl requests Hd).
  cbn [Client fst expirationMilliseconds].
  rewrite !IsEventProcessed_redisUp. cbn [fst]. f_equal.
  rewrite marked_lookup.
  destruct (bool_decide (GetUniqueKey e ∈ map GetUniqueKey requests));
    [now rewrite bool_decide_eq_true_2 | reflexivity].
Qed.

(** X6. After [SetMultipleEventsProcessed] on a reachable cache whose
    cache duration, as [getExpirationDuration] computes it in [int64]
    nanoseconds, is positive (every duration from 1 ms to
    9223372036854 ms is), the pipeline returns no error, and the lookup
    in the state the marking leaves reports as processed exactly the
    events whose fingerprint was in the marked batch and those it
    reported before. *)
Theorem marked_then_processed (keys : gmap string string) (ttl : Z)
    (requests : list EventRequest) (e : EventRequest) :
  let r := {| Client := redisUp keys; expirationMilliseconds := ttl |} in
  0 < getExpirationDuration r ->
  snd (SetMultipleEventsProcessed r requests) = None
  /\ IsEventProcessed (afterMarking r requests) e
     = (bool_decide (GetUniqueKey e ∈ map GetUniqueKey requests)
        || fst (IsEventProcessed r e), None).
Proof.
  intros r Hd. split.
  - subst r. now rewrite (SetMultipleEventsProcessed_accepted keys ttl requests Hd).
  - now apply IsEventProcessed_afterMarking.
Qed.

Lemma marked_then_processed_witness :
  let e := samples.event "purchase" "user_1" in
  let r := {| Client := redisUp ∅; expirationMilliseconds := 3600000 |} in
  0 < getExpirationDuration r
  /\ IsEventProcessed r e = (false, None)
  /\ snd (SetMultipleEventsProcessed r [e]) = None
  /\ IsEventProcessed (afterMarking r [e]) e = (true, None).
Proof.
  intros e r.
  assert (Hd : 0 < getExpirationDuration r) by (vm_compute; reflexivity).
  split; [exact Hd|]. split; [reflexivity|].
  exact (marked_then_processed ∅ 3600000 [e] e Hd).
Defined.

(** X7. After a batch is marked on a reachable cache whose cache
    duration in [int64] nanoseconds is positive, the dedup filter drops
    every event with a marked fingerprint and treats the others as it
    did before; on the marked batch itself it returns the empty list. *)
Theorem marked_then_filtered (keys : gmap string string) (ttl : Z)
    (requests events : list EventRequest) :
  let r := {| Client := redisUp keys; expirationMilliseconds := ttl |} in
  0 < getExpirationDuration r ->
  EventBatcher_.filterProcessedEvents (afterMarking r requests) events
  = filter (fun e => GetUniqueKey e ∉ map GetUniqueKey requests)
      (EventBatcher_.filterProcessedEvents r events)
  /\ EventBatcher_.filterProcessedEvents (afterMarking r requests) requests = [].
Proof.
  intros r Hd.
  assert (H : forall l,
    EventBatcher_.filterProcessedEvents (afterMarking r requests) l
    = filter (fun e => GetUniqueKey e ∉ map GetUniqueKey requests)
        (EventBatcher_.filterProcessedEvents r l)).
  { intros l. subst r. unfold afterMarking.
    rewrite (SetMultipleEventsProcessed_accepted keys ttl requests Hd).
    cbn [Client fst expirationMilliseconds].
    rewrite !filterProcessedEvents_redisUp, list_filter_filter.
    apply filter_ext_elem. intros e _. rewrite marked_lookup.
    case_bool_decide as Hin;
      [split; [intros Hf; now elim Hf | intros [Hm _]; contradiction] | tauto]. }
  split; [apply H|].
  rewrite H.
  assert (Hsub : forall x, x ∈ EventBatcher_.filterProcessedEvents r requests
                           -> x ∈ requests).
  { intros x. unfold r. rewrite filterProcessedEvents_redisUp.
    intros Hx. now apply list_elem_of_filter in Hx as [_ Hx]. }
  revert Hsub. generalize (EventBatcher_.filterProcessedEvents r requests).
  intros l0 Hsub. induction l0 as [|x l0 IH]; [reflexivity|].
  rewrite filter_cons. rewrite decide_False.
  - apply IH. intros y Hy. apply Hsub. now right.
  - intros Hn. apply Hn. apply list_elem_of_fmap. exists x. split; [reflexivity|].
    apply Hsub. left.
Qed.

Lemma marked_then_filtered_witness :
  let e1 := samples.event "purchase" "user_1" in
  let e2 := samples.event "purchase" "user_2" in
  let r := {| Client := redisUp ∅; expirationMilliseconds := 3600000 |} in
  EventBatcher_.filterProcessedEvents (afterMarking r [e1]) [e1; e2; e1]
  = filter (fun e => GetUniqueKey e ∉ map GetUniqueKey [e1])
      (EventBatcher_.filterProcessedEvents r [e1; e2; e1])
  /\ EventBatcher_.filterProcessedEvents (afterMarking r [e1]) [e1; e2; e1] = [e2].
Proof.
  intros e1 e2 r. split; [|vm_compute; reflexivity].
  apply (marked_then_filtered ∅ 3600000 [e1] [e1; e2; e1]).
  vm_compute. reflexivity.
Defined.

Lemma AreEventsProcessed_redisUp (keys : gmap string string) (ttl : Z)
    (events : list EventRequest) (e : EventRequest) :
  e ∈ events ->
  exists m,
    AreEventsProcessed {| Client := redisUp keys; expirationMilliseconds := ttl |}
      events = (Some m, None)
    /\ m !! GetUniqueKey e = entryOf (keys !! cacheKey e).
Proof.
  intros He. unfold AreEventsProcessed, MGet. cbn [Client].
  destruct (map (fun request => RedisKeyPrefix +:+ GetUniqueKey request) events)
    as [|k ks] eqn:K.
  { destruct events; [inversion He | discriminate K]. }
  rewrite <- K. clear K k ks. eexists. split; [reflexivity|].
  rewrite map_map.
  change (fun x : EventRequest => keys !! (RedisKeyPrefix +:+ GetUniqueKey x))
    with (fun x : EventRequest => keys !! cacheKey x).
  rewrite rangeResults_lookup, lookup_empty.
  case_bool_decide as Hd; [reflexivity|].
  destruct (entryOf (keys !! cacheKey e)) eqn:E; [|reflexivity].
  elim Hd. split; [apply list_elem_of_fmap; eauto | eauto].
Qed.

(** X8. The single lookup and the batch lookup agree: for an event of
    the batch, [IsEventProcessed] reports it processed exactly when
    [AreEventsProcessed] answers with a mapping that holds [true] for
    its fingerprint. *)
Theorem single_and_batch_lookup_agree (r : ClickHouseRedis)
    (events : list EventRequest) (e : EventRequest) :
  e ∈ events ->
  (fst (IsEventProcessed r e) = true
   <-> exists m, AreEventsProcessed r events = (Some m, None)
                 /\ m !! GetUniqueKey e = Some true).
Proof.
  intros He. destruct r as [[keys|cerr] ttl].
  - rewrite IsEventProcessed_redisUp. cbn [fst].
    destruct (AreEventsProcessed_redisUp keys ttl events e He) as (m & Hm & Hl).
    rewrite Hm. split.
    + intros Hb. apply bool_decide_eq_true in Hb. exists m. split; [reflexivity|].
      rewrite Hl, Hb. reflexivity.
    + intros (m' & Heq & Hm'). assert (m' = m) by congruence. subst m'.
      rewrite Hl in Hm'. apply bool_decide_eq_true.
      destruct (keys !! cacheKey e) as [v|]; [|discriminate]. cbn in Hm'.
      destruct (String.eqb_spec v "1") as [->|]; [reflexivity | discriminate].
  - rewrite IsEventProcessed_redisDown. cbn [fst].
    split; [discriminate|]. intros (m & H & _). discriminate.
Qed.

Lemma single_and_batch_lookup_agree_witness :
  let e1 := samples.event "purchase" "user_1" in
  let e2 := samples.event "purchase" "user_2" in
  exists m, AreEventsProcessed (samples.cacheWith [e2]) [e1; e2] = (Some m, None)
            /\ m !! GetUniqueKey e2 = Some true.
Proof.
  intros e1 e2.
  apply (single_and_batch_lookup_agree (samples.cacheWith [e2]) [e1; e2] e2).
  - right. left.
  - vm_compute. reflexivity.
Defined.

(** X9. An event marked as processed on a reachable cache whose cache
    duration in [int64] nanoseconds is positive is answered "Event
    already processed" by [PostEvents] and never reaches the queue. *)
Theorem marked_then_post_is_duplicate (keys : gmap string string) (ttl : Z)
    (requests : list EventRequest) (b : EventBatcher) (e : EventRequest) :
  let r := {| Client := redisUp keys; expirationMilliseconds := ttl |} in
  0 < getExpirationDuration r -> e ∈ requests ->
  PostEvents (afterMarking r requests) b e
  = ({| er_Success := true; er_Message := "Event already processed" |}, None, b).
Proof.
  intros r Hd He. subst r. unfold PostEvents.
  rewrite (IsEventProcessed_afterMarking keys ttl requests e Hd).
  rewrite bool_decide_eq_true_2 by (apply list_elem_of_fmap; eauto).
  reflexivity.
Qed.

Lemma marked_then_post_is_duplicate_witness :
  let e := samples.event "purchase" "user_1" in
  let r := {| Client := redisUp ∅; expirationMilliseconds := 3600000 |} in
  PostEvents (afterMarking r [e]) (samples.queue 1 [] false) e
  = ({| er_Success := true; er_Message := "Event already processed" |}, None,
     samples.queue 1 [] false).
Proof.
  intros e r.
  apply (marked_then_post_is_duplicate ∅ 3600000 [e] (samples.queue 1 [] false) e).
  - vm_compute. reflexivity.
  - left.
Defined.

(** X23. On a reachable cache whose cache duration in [int64]
    nanoseconds is not positive (the configured milliseconds are 0 or
    less, or their product with [time.Millisecond] has wrapped below
    zero), marking a batch that is not empty fails: [Exec] returns an
    error, no key is set, and the lookups and the dedup filter answer
    as they did before. *)
Theorem marking_refused_without_duration (keys : gmap string string) (ttl : Z)
    (requests events : list EventRequest) (e : EventRequest) :
  let r := {| Client := redisUp keys; expirationMilliseconds := ttl |} in
  getExpirationDuration r <= 0 -> requests <> [] ->
  snd (SetMultipleEventsProcessed r requests) <> None
  /\ afterMarking r requests = r
  /\ IsEventProcessed (afterMarking r requests) e = IsEventProcessed r e
  /\ EventBatcher_.filterProcessedEvents (afterMarking r requests) events
     = EventBatcher_.filterProcessedEvents r events.
Proof.
  intros r Hd Hne.
  assert (Hr : afterMarking r requests = r).
  { subst r. unfold afterMarking.
    now rewrite (SetMultipleEventsProcessed_refused keys ttl requests Hd Hne). }
  split; [|split; [exact Hr | rewrite Hr; split; reflexivity]].
  subst r. rewrite (SetMultipleEventsProcessed_refused keys ttl requests Hd Hne).
  discriminate.
Qed.

Lemma marking_refused_without_duration_witness :
  let e := samples.event "purchase" "user_1" in
  let zero := {| Client := redisUp ∅; expirationMilliseconds := 0 |} in
  let wrapped := {| Client := redisUp ∅;
                    expirationMilliseconds := 9223372036855 |} in
  IsEventProcessed (afterMarking zero [e]) e = IsEventProcessed zero e
  /\ IsEventProcessed (afterMarking wrapped [e]) e = IsEventProcessed wrapped e.
Proof.
  intros e zero wrapped. split.
  - apply (marking_refused_without_duration ∅ 0 [e] [] e).
    + vm_compute. discriminate.
    + discriminate.
  - apply (marking_refused_without_duration ∅ 9223372036855 [e] [] e).
    + vm_compute. discriminate.
    + discriminate.
Defined.

End Cache.

(** ** The batcher at work *)

Section Batcher.
Import database services notions.

Variable json_Marshal : gmap string any -> string * option error.

Lemma filterProcessedEvents_sublist (r : ClickHouseRedis) (events : list EventRequest) :
  sublist (EventBatcher_.filterProcessedEvents r events) events.
Proof.
  unfold EventBatcher_.filterProcessedEvents, AreEventsProcessed.
  destruct (MGet r _) as [results [err|]]; [reflexivity|].
  rewrite (rangeEvents_filter _ events []). apply sublist_filter.
Qed.

Lemma filterProcessedEvents_redisDown (cerr : error) (ttl : Z)
    (events : list EventRequest) :
  EventBatcher_.filterProcessedEvents
    {| Client := redisDown cerr; expirationMilliseconds := ttl |} events = events.
Proof. reflexivity. Qed.

Lemma drain_app (buf batch : list EventRequest) (n : nat) :
  drain buf batch n = (batch ++ buf, (n + length buf)%nat).
Proof.
  revert batch n. induction buf as [|e buf IH]; intros batch n; cbn [drain].
  - now rewrite app_nil_r, Nat.add_0_r.
  - rewrite IH, <- app_assoc. cbn. f_equal. lia.
Qed.

(** What one flush does to the batcher and hands to the writer. *)
Lemma flushBatch_shape (env : Env) (b : EventBatcher) :
  let '(b', fx) := flushBatch json_Marshal env b in
  b' = setBatch [] b
  /\ (handed fx = []
      \/ handed fx = EventBatcher_.filterProcessedEvents (env_redis env) (currentBatch b))
  /\ (EventBatcher_.filterProcessedEvents (env_redis env) (currentBatch b)
      = currentBatch b -> handed fx = currentBatch b)
  /\ wellMarked fx.
Proof.
  unfold flushBatch.
  destruct (currentBatch b) as [|e batch] eqn:E; cbn [length Nat.eqb].
  - repeat split; try (left; reflexivity); try constructor.
    destruct b; cbn in *; now subst.
  - set (u := EventBatcher_.filterProcessedEvents _ _).
    destruct (Nat.eqb_spec (length u) 0) as [L|L].
    + repeat split; try (left; reflexivity); try constructor.
      intros Hu. rewrite Hu in L. discriminate L.
    + destruct (SaveEvents _ _ _ u) as [err|]; cbn; rewrite app_nil_r;
        repeat split; try (right; reflexivity); auto; repeat constructor.
Qed.

Lemma flushBatch_handed (env : Env) (b : EventBatcher) :
  let '(b', fx) := flushBatch json_Marshal env b in
  sublist (handed fx ++ pending b') (pending b)
  /\ batchSize b' = batchSize b
  /\ eventChan b' = eventChan b
  /\ currentBatch b' = [].
Proof.
  pose proof (flushBatch_shape env b) as H.
  destruct (flushBatch json_Marshal env b) as [b' fx].
  destruct H as (-> & Hh & _ & _). unfold pending. cbn.
  repeat split. apply sublist_app; [|reflexivity].
  destruct Hh as [->| ->]; [apply sublist_nil_l | apply filterProcessedEvents_sublist].
Qed.

Lemma handed_app fx1 fx2 : handed (fx1 ++ fx2) = handed fx1 ++ handed fx2.
Proof. unfold handed. apply flat_map_app. Qed.

Lemma wellMarked_app fx1 fx2 :
  wellMarked fx1 -> wellMarked fx2 -> wellMarked (fx1 ++ fx2).
Proof. induction 1; intros H2; cbn; [assumption | constructor; auto ..]. Qed.

Lemma carriesOn_refl b : carriesOn b b [].
Proof. unfold carriesOn. repeat split; try reflexivity. constructor. Qed.

Lemma carriesOn_trans b b1 b2 fx1 fx2 :
  carriesOn b b1 fx1 -> carriesOn b1 b2 fx2 -> carriesOn b b2 (fx1 ++ fx2).
Proof.
  intros (S1 & B1 & C1 & L1 & W1) (S2 & B2 & C2 & L2 & W2).
  unfold carriesOn. repeat split; try congruence; try lia.
  - rewrite handed_app, <- app_assoc.
    etransitivity; [|exact S1]. apply sublist_app; [reflexivity | exact S2].
  - now apply wellMarked_app.
Qed.

(** A change of the batcher that moves events from the queue to the
    batch, or touches neither. *)
Lemma carriesOn_same b b' :
  pending b' = pending b -> batchSize b' = batchSize b ->
  chan_cap (eventChan b') = chan_cap (eventChan b) ->
  (length (chan_buf (eventChan b')) <= length (chan_buf (eventChan b)))%nat ->
  carriesOn b b' [].
Proof.
  intros Hp Hb Hc Hl. unfold carriesOn. cbn. rewrite Hp.
  repeat split; try assumption; try reflexivity. constructor.
Qed.

Lemma flushBatch_carriesOn env b :
  carriesOn b (fst (flushBatch json_Marshal env b)) (snd (flushBatch json_Marshal env b)).
Proof.
  pose proof (flushBatch_handed env b) as H.
  pose proof (flushBatch_shape env b) as H'.
  destruct (flushBatch json_Marshal env b) as [b' fx]. cbn [fst snd].
  destruct H as (S & B & C & _). destruct H' as (_ & _ & _ & W).
  unfold carriesOn. rewrite C. repeat split; auto.
Qed.

Lemma flushRemaining_carriesOn env1 env2 b :
  carriesOn b (fst (flushRemaining json_Marshal env1 env2 b))
    (snd (flushRemaining json_Marshal env1 env2 b))
  /\ pending (fst (flushRemaining json_Marshal env1 env2 b)) = [].
Proof.
  unfold flushRemaining.
  assert (H1 : exists b1 fx1,
             (if (0 <? length (currentBatch b))%nat
              then flushBatch json_Marshal env1 b else (b, [])) = (b1, fx1)
             /\ carriesOn b b1 fx1 /\ currentBatch b1 = []).
  { destruct (Nat.ltb_spec 0 (length (currentBatch b))) as [L|L].
    - pose proof (flushBatch_carriesOn env1 b) as C.
      pose proof (flushBatch_handed env1 b) as H.
      destruct (flushBatch json_Marshal env1 b) as [b1 fx1].
      exists b1, fx1. cbn [fst snd] in C.
      split; [reflexivity|]. split; [exact C | apply H].
    - exists b, []. split; [reflexivity|]. split; [apply carriesOn_refl|].
      destruct (currentBatch b); [reflexivity | cbn in L; lia]. }
  destruct H1 as (b1 & fx1 & -> & C1 & E1).
  rewrite drain_app, E1. cbn [app Nat.add].
  set (b2 := setBatch _ _).
  assert (C2 : carriesOn b1 b2 []).
  { apply carriesOn_same; subst b2; unfold pending; cbn; try reflexivity;
      [now rewrite E1, app_nil_r | lia]. }
  destruct (Nat.ltb_spec 0 (length (chan_buf (eventChan b1)))) as [L|L].
  - pose proof (flushBatch_carriesOn env2 b2) as C3.
    pose proof (flushBatch_handed env2 b2) as H3.
    destruct (flushBatch json_Marshal env2 b2) as [b3 fx3]. cbn [fst snd] in *.
    split.
    + rewrite <- (app_nil_l fx3), app_assoc.
      eapply carriesOn_trans; [eapply carriesOn_trans; eassumption | exact C3].
    + destruct H3 as (_ & _ & Hc & Hb). unfold pending. rewrite Hb, Hc.
      subst b2. reflexivity.
  - cbn [fst snd]. split.
    + rewrite <- (app_nil_r fx1). eapply carriesOn_trans; eassumption.
    + subst b2. unfold pending. cbn.
      destruct (chan_buf (eventChan b1)); [reflexivity | cbn in L; lia].
Qed.

Lemma workerTurn_carriesOn sc b :
  let '(b', fx, returned) := workerTurn json_Marshal sc b in
  carriesOn b b' fx /\ (returned = true -> pending b' = []).
Proof.
  destruct sc as [env1 env2|env|env|]; cbn [workerTurn].
  - set (b0 := setChan (leave (eventChan b)) b).
    assert (C0 : carriesOn b b0 [])
      by (apply carriesOn_same; subst b0; unfold pending; cbn; reflexivity || lia).
    destruct (flushRemaining_carriesOn env1 env2 b0) as [C P].
    destruct (flushRemaining json_Marshal env1 env2 b0) as [b' fx]. cbn [fst snd] in *.
    split; [|intros _; exact P].
    rewrite <- (app_nil_l fx). eapply carriesOn_trans; eassumption.
  - unfold recv. destruct (chan_buf (eventChan b)) as [|v rest] eqn:E.
    + split; [apply carriesOn_refl | discriminate].
    + set (b0 := setBatch _ _).
      assert (C0 : carriesOn b b0 []).
      { apply carriesOn_same; subst b0; unfold pending; cbn; try reflexivity.
        - rewrite E, <- app_assoc. reflexivity.
        - rewrite E. cbn. lia. }
      match goal with |- context [if ?c then _ else _] => destruct c end.
      * pose proof (flushBatch_carriesOn env b0) as C.
        destruct (flushBatch json_Marshal env b0) as [b' fx]. cbn [fst snd] in *.
        split; [|discriminate].
        rewrite <- (app_nil_l fx). eapply carriesOn_trans; eassumption.
      * split; [exact C0 | discriminate].
  - set (b0 := setChan (leave (eventChan b)) b).
    assert (C0 : carriesOn b b0 [])
      by (apply carriesOn_same; subst b0; unfold pending; cbn; reflexivity || lia).
    match goal with |- context [if ?c then _ else _] => destruct c end.
    + pose proof (flushBatch_carriesOn env b0) as C.
      destruct (flushBatch json_Marshal env b0) as [b' fx]. cbn [fst snd] in *.
      split; [|discriminate].
      rewrite <- (app_nil_l fx). eapply carriesOn_trans; eassumption.
    + split; [exact C0 | discriminate].
  - split; [|discriminate].
    apply carriesOn_same; unfold pending; cbn; reflexivity || lia.
Qed.

Lemma worker_carriesOn schedule b :
  let '(b', fx, returned) := worker json_Marshal schedule b in
  carriesOn b b' fx /\ (returned = true -> pending b' = []).
Proof.
  revert b. induction schedule as [|sc rest IH]; intros b; cbn [worker].
  - split; [apply carriesOn_refl | discriminate].
  - pose proof (workerTurn_carriesOn sc b) as H.
    destruct (workerTurn json_Marshal sc b) as [[b1 fx1] returned1].
    destruct H as [C1 P1]. destruct returned1.
    + split; [exact C1 | exact P1].
    + specialize (IH b1).
      destruct (worker json_Marshal rest b1) as [[b2 fx2] returned2].
      destruct IH as [C2 P2]. split; [|exact P2].
      eapply carriesOn_trans; eassumption.
Qed.

End Batcher.

(** ** What a run of the worker guarantees *)

Section WorkerRuns.
Import database services notions.

Variable json_Marshal : gmap string any -> string * option error.

(** X10. Along any run of the worker, the events handed to the columnar
    writer, followed by the events still held in the batch and the
    queue, form a subsequence of the events held at the start: no event
    is written twice, out of order, or invented. *)
Theorem worker_keeps_order (schedule : list selectCase) (b : EventBatcher) :
  sublist
    (handed (snd (fst (worker json_Marshal schedule b)))
       ++ pending (fst (fst (worker json_Marshal schedule b))))
    (pending b).
Proof.
  pose proof (worker_carriesOn json_Marshal schedule b) as H.
  destruct (worker json_Marshal schedule b) as [[b' fx] returned].
  destruct H as [(S & _) _]. exact S.
Qed.

(** X11. Events are marked as processed only after, and always right
    after, a successful write of exactly those events: along any run of
    the worker and in the bulk path. *)
Theorem marking_follows_writes (schedule : list selectCase) (b : EventBatcher)
    (env : Env) (bulkData : BulkEventRequest) :
  wellMarked (snd (fst (worker json_Marshal schedule b)))
  /\ wellMarked (snd (PostEventsBulk json_Marshal env bulkData)).
Proof.
  split.
  - pose proof (worker_carriesOn json_Marshal schedule b) as H.
    destruct (worker json_Marshal schedule b) as [[b' fx] returned].
    destruct H as [(_ & _ & _ & _ & W) _]. exact W.
  - unfold PostEventsBulk.
    destruct (SaveEvents _ _ _ _); cbn; repeat constructor.
Qed.

(** X12. When the worker returns (on cancellation), nothing is left
    behind: the current batch and the queue are empty, and the batch
    size and the capacity are what they were. *)
Theorem worker_returns_drained (schedule : list selectCase) (b : EventBatcher) :
  snd (worker json_Marshal schedule b) = true ->
  let b' := fst (fst (worker json_Marshal schedule b)) in
  currentBatch b' = [] /\ chan_buf (eventChan b') = []
  /\ batchSize b' = batchSize b
  /\ chan_cap (eventChan b') = chan_cap (eventChan b).
Proof.
  pose proof (worker_carriesOn json_Marshal schedule b) as H.
  destruct (worker json_Marshal schedule b) as [[b' fx] returned].
  cbn. intros ->. destruct H as [(_ & B & C & _) P].
  specialize (P eq_refl). unfold pending in P.
  apply app_eq_nil in P as [-> ->]. auto.
Qed.

Lemma flushBatch_down env b :
  cacheIsDown env ->
  handed (snd (flushBatch json_Marshal env b))
    ++ pending (fst (flushBatch json_Marshal env b)) = pending b.
Proof.
  intros [cerr Hd].
  pose proof (flushBatch_shape json_Marshal env b) as H.
  destruct (flushBatch json_Marshal env b) as [b' fx].
  destruct H as (-> & _ & Hh & _). cbn [fst snd]. rewrite Hh.
  - reflexivity.
  - destruct (env_redis env) as [client ttl]. cbn in Hd. subst client.
    apply filterProcessedEvents_redisDown.
Qed.

Lemma flushRemaining_down env1 env2 b :
  cacheIsDown env1 -> cacheIsDown env2 ->
  handed (snd (flushRemaining json_Marshal env1 env2 b)) = pending b.
Proof.
  intros D1 D2.
  destruct (flushRemaining_carriesOn json_Marshal env1 env2 b) as [_ P].
  revert P. unfold flushRemaining.
  pose proof (flushBatch_down env1 b D1) as H1.
  pose proof (flushBatch_handed json_Marshal env1 b) as E1.
  destruct (Nat.ltb_spec 0 (length (currentBatch b))) as [L|L].
  - destruct (flushBatch json_Marshal env1 b) as [b1 fx1]. cbn [fst snd] in *.
    destruct E1 as (_ & _ & C1 & B1).
    rewrite drain_app, B1. cbn [app Nat.add].
    set (b2 := setBatch _ _).
    pose proof (flushBatch_down env2 b2 D2) as H2.
    destruct (Nat.ltb_spec 0 (length (chan_buf (eventChan b1)))) as [L2|L2].
    + destruct (flushBatch json_Marshal env2 b2) as [b3 fx3]. cbn [fst snd] in *.
      intros P. rewrite P, app_nil_r in H2.
      rewrite handed_app, H2, <- H1. subst b2. unfold pending. cbn.
      now rewrite B1, app_nil_r.
    + cbn [fst snd]. intros _. rewrite <- H1. unfold pending. rewrite B1.
      destruct (chan_buf (eventChan b1)); [now rewrite !app_nil_r | cbn in L2; lia].
  - clear H1 E1.
    assert (B : currentBatch b = [])
      by (destruct (currentBatch b); [reflexivity | cbn in L; lia]).
    rewrite drain_app, B. cbn [app Nat.add].
    set (b2 := setBatch _ _).
    pose proof (flushBatch_down env2 b2 D2) as H2.
    destruct (Nat.ltb_spec 0 (length (chan_buf (eventChan b)))) as [L2|L2].
    + destruct (flushBatch json_Marshal env2 b2) as [b3 fx3]. cbn [fst snd] in *.
      intros P. rewrite P, app_nil_r in H2. cbn [app].
      rewrite H2. subst b2. unfold pending. cbn. now rewrite B, app_nil_r.
    + cbn [fst snd]. intros _. unfold pending. rewrite B.
      destruct (chan_buf (eventChan b)); [reflexivity | cbn in L2; lia].
Qed.

Lemma workerTurn_down sc b :
  caseCacheDown sc ->
  let '(b', fx, returned) := workerTurn json_Marshal sc b in
  handed fx ++ pending b' = pending b.
Proof.
  destruct sc as [env1 env2|env|env|]; cbn [workerTurn caseCacheDown].
  - intros [D1 D2]. set (b0 := setChan (leave (eventChan b)) b).
    pose proof (flushRemaining_down env1 env2 b0 D1 D2) as H.
    destruct (flushRemaining_carriesOn json_Marshal env1 env2 b0) as [_ P].
    destruct (flushRemaining json_Marshal env1 env2 b0) as [b' fx]. cbn [fst snd] in *.
    rewrite H, P, app_nil_r. reflexivity.
  - intros D. unfold recv. destruct (chan_buf (eventChan b)) as [|v rest] eqn:E;
      [reflexivity|].
    set (b0 := setBatch _ _).
    assert (P0 : pending b0 = pending b)
      by (subst b0; unfold pending; cbn; now rewrite E, <- app_assoc).
    match goal with |- context [if ?c then _ else _] => destruct c end;
      [|exact P0].
    pose proof (flushBatch_down env b0 D) as H.
    destruct (flushBatch json_Marshal env b0) as [b' fx]. cbn [fst snd] in *.
    congruence.
  - intros D. set (b0 := setChan (leave (eventChan b)) b).
    match goal with |- context [if ?c then _ else _] => destruct c end;
      [|reflexivity].
    pose proof (flushBatch_down env b0 D) as H.
    destruct (flushBatch json_Marshal env b0) as [b' fx]. cbn [fst snd] in *.
    exact H.
  - reflexivity.
Qed.

(** X13. Degrade open loses nothing: when the cache fails every lookup,
    a run of the worker that ends with its return has handed to the
    columnar writer every event of the batch and of the queue, once and
    in intake order. *)
Theorem worker_cache_down_hands_all (schedule : list selectCase) (b : EventBatcher) :
  Forall caseCacheDown schedule ->
  snd (worker json_Marshal schedule b) = true ->
  handed (snd (fst (worker json_Marshal schedule b))) = pending b.
Proof.
  intros Hd Hr.
  assert (H : let '(b', fx, returned) := worker json_Marshal schedule b in
              handed fx ++ pending b' = pending b).
  { clear Hr. revert b. induction Hd as [|sc rest Hsc _ IH]; intros b; cbn [worker].
    - reflexivity.
    - pose proof (workerTurn_down sc b Hsc) as H1.
      destruct (workerTurn json_Marshal sc b) as [[b1 fx1] returned1].
      destruct returned1; [exact H1|].
      specialize (IH b1).
      destruct (worker json_Marshal rest b1) as [[b2 fx2] returned2].
      rewrite handed_app, <- app_assoc, IH. exact H1. }
  pose proof (worker_carriesOn json_Marshal schedule b) as C.
  destruct (worker json_Marshal schedule b) as [[b' fx] returned].
  cbn in Hr |- *. subst returned. destruct C as [_ P].
  rewrite (P eq_refl), app_nil_r in H. exact H.
Qed.

Lemma workerTurn_batch sc b :
  0 < batchSize b ->
  Z.of_nat (length (currentBatch b)) < batchSize b ->
  let b' := fst (fst (workerTurn json_Marshal sc b)) in
  Z.of_nat (length (currentBatch b')) < batchSize b'.
Proof.
  intros Hs Hb.
  pose proof (workerTurn_carriesOn json_Marshal sc b) as C.
  destruct sc as [env1 env2|env|env|]; cbn [workerTurn] in *.
  - destruct (flushRemaining json_Marshal env1 env2 _) as [b' fx].
    destruct C as [(_ & B & _) P]. cbn. specialize (P eq_refl).
    apply app_eq_nil in P as [-> _]. cbn. lia.
  - destruct (recv (eventChan b)) as [[event ch]|]; [|exact Hb].
    match goal with |- context [Z.geb ?x ?y] => destruct (Z.geb_spec x y) as [G|G] end.
    + match goal with |- context [flushBatch json_Marshal env ?b0] =>
        pose proof (flushBatch_handed json_Marshal env b0) as H;
        destruct (flushBatch json_Marshal env b0) as [b' fx] end.
      destruct H as (_ & B & _ & E). cbn [fst snd]. rewrite E, B. cbn in *. lia.
    + cbn in *. lia.
  - match goal with |- context [if ?c then _ else _] => destruct c end.
    + match goal with |- context [flushBatch json_Marshal env ?b0] =>
        pose proof (flushBatch_handed json_Marshal env b0) as H;
        destruct (flushBatch json_Marshal env b0) as [b' fx] end.
      destruct H as (_ & B & _ & E). cbn [fst snd]. rewrite E, B. cbn in *. lia.
    + exact Hb.
  - exact Hb.
Qed.

Lemma workerTurn_keeps sc b :
  let b' := fst (fst (workerTurn json_Marshal sc b)) in
  batchSize b' = batchSize b
  /\ chan_cap (eventChan b') = chan_cap (eventChan b)
  /\ (length (chan_buf (eventChan b')) <= length (chan_buf (eventChan b)))%nat.
Proof.
  pose proof (workerTurn_carriesOn json_Marshal sc b) as C.
  destruct (workerTurn json_Marshal sc b) as [[b' fx] returned].
  destruct C as [(_ & B & Cp & L & _) _]. auto.
Qed.

Lemma Enqueue_keeps event b :
  let b' := fst (Enqueue event b) in
  batchSize b' = batchSize b /\ currentBatch b' = currentBatch b
  /\ chan_cap (eventChan b') = chan_cap (eventChan b)
  /\ ((0 < chan_cap (eventChan b))%nat ->
      (length (chan_buf (eventChan b)) <= chan_cap (eventChan b))%nat ->
      (length (chan_buf (eventChan b')) <= chan_cap (eventChan b))%nat).
Proof.
  unfold Enqueue. destruct (sendReady (eventChan b)) eqn:R; cbn; repeat split; auto.
  intros Hc _. rewrite sendReady_buffered in R by assumption.
  apply Nat.ltb_lt in R. rewrite length_app. cbn. lia.
Qed.

(** X14. However producers and the worker take turns, a batcher with a
    batch size of at least 1 never holds a full batch between two
    turns: the current batch stays shorter than the batch size. *)
Theorem batch_stays_below_size (actions : list action) (b : EventBatcher)
    (returned : bool) :
  0 < batchSize b ->
  Z.of_nat (length (currentBatch b)) < batchSize b ->
  let b' := fst (run json_Marshal actions b returned) in
  batchSize b' = batchSize b
  /\ Z.of_nat (length (currentBatch b')) < batchSize b.
Proof.
  revert b returned. induction actions as [|[event|sc] rest IH];
    intros b returned Hs Hb; cbn [run].
  - auto.
  - pose proof (Enqueue_keeps event b) as K. cbv zeta in K.
    destruct K as (B & C & _).
    destruct (IH (fst (Enqueue event b)) returned) as [B' L'].
    + now rewrite B.
    + now rewrite B, C.
    + cbv zeta. rewrite B', <- B. split; [reflexivity | exact L'].
  - destruct returned; [now apply IH|].
    pose proof (workerTurn_batch sc b Hs Hb) as L.
    pose proof (workerTurn_keeps sc b) as K. cbv zeta in L, K.
    destruct K as (B & _).
    destruct (workerTurn json_Marshal sc b) as [[b1 fx] returned1].
    cbn [fst snd] in *.
    destruct (IH b1 returned1) as [B' L'].
    + now rewrite B.
    + exact L.
    + cbv zeta. rewrite B', <- B. split; [reflexivity | exact L'].
Qed.

(** X15. However producers and the worker take turns, a queue of
    capacity at least 1 never holds more events than its capacity. *)
Theorem queue_stays_within_capacity (actions : list action) (b : EventBatcher)
    (returned : bool) :
  (0 < chan_cap (eventChan b))%nat ->
  (length (chan_buf (eventChan b)) <= chan_cap (eventChan b))%nat ->
  let b' := fst (run json_Marshal actions b returned) in
  chan_cap (eventChan b') = chan_cap (eventChan b)
  /\ (length (chan_buf (eventChan b')) <= chan_cap (eventChan b))%nat.
Proof.
  revert b returned. induction actions as [|[event|sc] rest IH];
    intros b returned Hc Hl; cbn [run].
  - auto.
  - pose proof (Enqueue_keeps event b) as K. cbv zeta in K.
    destruct K as (_ & _ & C & L). specialize (L Hc Hl).
    destruct (IH (fst (Enqueue event b)) returned) as [C' L'].
    + now rewrite C.
    + now rewrite C.
    + cbv zeta. rewrite C', <- C. split; [reflexivity | exact L'].
  - destruct returned; [now apply IH|].
    pose proof (workerTurn_keeps sc b) as K. cbv zeta in K.
    destruct K as (_ & C & L).
    destruct (workerTurn json_Marshal sc b) as [[b1 fx] returned1].
    cbn [fst snd] in *.
    destruct (IH b1 returned1) as [C' L'].
    + now rewrite C.
    + rewrite C. lia.
    + cbv zeta. rewrite C', <- C. split; [reflexivity | exact L'].
Qed.

End WorkerRuns.

(** *** Sample runs *)

Section SampleRuns.
Import database services notions.

Lemma worker_returns_drained_witness :
  let e1 := samples.event "purchase" "user_1" in
  let e2 := samples.event "purchase" "user_2" in
  let env := {| env_redis := samples.cacheDown; env_db := samples.storeDown;
                env_now := samples.clock |} in
  let b' := fst (fst (worker samples.marshal [recvEvent env; ctxDone env env]
                        (samples.queue 8 [e1; e2] false))) in
  currentBatch b' = [] /\ chan_buf (eventChan b') = []
  /\ batchSize b' = 2 /\ chan_cap (eventChan b') = 8%nat.
Proof.
  intros e1 e2 env.
  apply (worker_returns_drained samples.marshal [recvEvent env; ctxDone env env]
           (samples.queue 8 [e1; e2] false)).
  reflexivity.
Defined.

Lemma worker_cache_down_hands_all_witness :
  let e1 := samples.event "purchase" "user_1" in
  let e2 := samples.event "purchase" "user_2" in
  let e3 := samples.event "view" "user_3" in
  let env := {| env_redis := samples.cacheDown; env_db := samples.storeDown;
                env_now := samples.clock |} in
  handed (snd (fst (worker samples.marshal
                      [recvEvent env; recvEvent env; tickerC env; ctxDone env env]
                      (samples.queue 8 [e1; e2; e3] false))))
  = [e1; e2; e3].
Proof.
  intros e1 e2 e3 env.
  apply (worker_cache_down_hands_all samples.marshal
           [recvEvent env; recvEvent env; tickerC env; ctxDone env env]
           (samples.queue 8 [e1; e2; e3] false)).
  - repeat constructor; eexists; reflexivity.
  - reflexivity.
Defined.

Lemma batch_stays_below_size_witness :
  let e1 := samples.event "purchase" "user_1" in
  let e2 := samples.event "purchase" "user_2" in
  let env := {| env_redis := samples.cacheDown; env_db := samples.storeUp;
                env_now := samples.clock |} in
  let b' := fst (run samples.marshal
                   [produce e1; produce e2; consume (recvEvent env);
                    produce e1; consume (recvEvent env)]
                   (samples.queue 8 [] false) false) in
  batchSize b' = 2 /\ Z.of_nat (length (currentBatch b')) < 2.
Proof.
  intros e1 e2 env.
  apply (batch_stays_below_size samples.marshal
           [produce e1; produce e2; consume (recvEvent env);
            produce e1; consume (recvEvent env)]
           (samples.queue 8 [] false) false); cbn; lia.
Defined.

Lemma queue_stays_within_capacity_witness :
  let e1 := samples.event "purchase" "user_1" in
  let e2 := samples.event "purchase" "user_2" in
  let env := {| env_redis := samples.cacheDown; env_db := samples.storeUp;
                env_now := samples.clock |} in
  let b' := fst (run samples.marshal
                   [produce e1; produce e2; produce e1; consume (recvEvent env);
                    produce e2]
                   (samples.queue 2 [] false) false) in
  chan_cap (eventChan b') = 2%nat
  /\ (length (chan_buf (eventChan b')) <= 2)%nat.
Proof.
  intros e1 e2 env.
  apply (queue_stays_within_capacity samples.marshal
           [produce e1; produce e2; produce e1; consume (recvEvent env);
            produce e2]
           (samples.queue 2 [] false) false); cbn; lia.
Defined.

End SampleRuns.

(** ** Backpressure, the bulk path and the columnar writer *)

Section Backpressure.
Import database services notions.

Lemma enqueueAll_buffered (events : list EventRequest) (b : EventBatcher) :
  (0 < chan_cap (eventChan b))%nat ->
  (length (chan_buf (eventChan b)) <= chan_cap (eventChan b))%nat ->
  let room := (chan_cap (eventChan b) - length (chan_buf (eventChan b)))%nat in
  let '(b', errs) := enqueueAll events b in
  chan_buf (eventChan b') = chan_buf (eventChan b) ++ take room events
  /\ errs = replicate (Nat.min (length events) room) None
            ++ replicate (length events - room) (Some ErrBufferFull)
  /\ chan_cap (eventChan b') = chan_cap (eventChan b)
  /\ currentBatch b' = currentBatch b.
Proof.
  revert b. induction events as [|e events IH]; intros b Hc Hl; cbn [enqueueAll].
  - cbn. rewrite take_nil, app_nil_r. auto.
  - unfold Enqueue. rewrite sendReady_buffered by assumption.
    destruct (Nat.ltb_spec (length (chan_buf (eventChan b))) (chan_cap (eventChan b)))
      as [L|L].
    + set (b1 := setChan (send e (eventChan b)) b).
      assert (Hc1 : chan_cap (eventChan b1) = chan_cap (eventChan b)) by reflexivity.
      assert (Hb1 : chan_buf (eventChan b1) = chan_buf (eventChan b) ++ [e])
        by reflexivity.
      specialize (IH b1). rewrite Hc1, Hb1, length_app in IH. cbn [length] in IH.
      specialize (IH Hc ltac:(lia)).
      destruct (enqueueAll events b1) as [b' errs].
      destruct IH as (-> & -> & -> & ->). cbv zeta.
      replace (chan_cap (eventChan b) - length (chan_buf (eventChan b)))%nat
        with (S (chan_cap (eventChan b) - (length (chan_buf (eventChan b)) + 1)))
        by lia.
      cbn [take length]. rewrite <- app_assoc. cbn.
      repeat split.
    + specialize (IH b Hc Hl).
      destruct (enqueueAll events b) as [b' errs].
      destruct IH as (-> & -> & -> & ->). cbv zeta.
      replace (chan_cap (eventChan b) - length (chan_buf (eventChan b)))%nat
        with 0%nat by lia.
      cbn. rewrite !Nat.min_0_r, !Nat.sub_0_r. cbn. rewrite take_0. auto.
Qed.

(** X16. A fresh batcher of capacity [c >= 1] takes the first [c] events
    enqueued and refuses every later one with [ErrBufferFull], as long
    as the worker does not receive: the queue then holds exactly the
    first [c] events, in order. *)
Theorem fresh_batcher_takes_capacity (capacity batchSize seconds : Z)
    (b : EventBatcher) (events : list EventRequest) :
  NewEventBatcher capacity batchSize seconds = Some b ->
  0 < capacity ->
  let c := Z.to_nat capacity in
  chan_buf (eventChan (fst (enqueueAll events b))) = take c events
  /\ snd (enqueueAll events b)
     = replicate (Nat.min (length events) c) None
       ++ replicate (length events - c) (Some ErrBufferFull).
Proof.
  unfold NewEventBatcher. intros Hb Hc.
  destruct ((capacity <? 0) || (batchSize <? 0)); [discriminate|].
  injection Hb as <-.
  match goal with |- context [enqueueAll events ?b0] =>
    pose proof (enqueueAll_buffered events b0) as H;
    destruct (enqueueAll events b0) as [b' errs] end.
  cbn in H. rewrite Nat.sub_0_r in H.
  destruct H as (E1 & E2 & _); [lia | lia |].
  cbn [fst snd]. rewrite E1, E2. auto.
Qed.

Lemma fresh_batcher_takes_capacity_witness :
  let e1 := samples.event "purchase" "user_1" in
  let e2 := samples.event "purchase" "user_2" in
  let e3 := samples.event "view" "user_3" in
  let b := {| eventChan := {| chan_cap := 2; chan_buf := []; chan_recv := false |};
              batchSize := 5000; flushInterval := 1; isRunning := false;
              currentBatch := [] |} in
  chan_buf (eventChan (fst (enqueueAll [e1; e2; e3] b))) = [e1; e2]
  /\ snd (enqueueAll [e1; e2; e3] b) = [None; None; Some ErrBufferFull].
Proof.
  intros e1 e2 e3 b.
  apply (fresh_batcher_takes_capacity 2 5000 1 b [e1; e2; e3]).
  - reflexivity.
  - lia.
Defined.

End Backpressure.

Section BulkAndWriter.
Import database services notions.

Variable json_Marshal : gmap string any -> string * option error.

(** X17. Degrade open on the bulk path: when the cache fails the batch
    lookup, [PostEventsBulk] hands every event of the request to the
    columnar writer, in order, and the response follows the outcome of
    that one write. *)
Theorem PostEventsBulk_cache_down (env : Env) (bulkData : BulkEventRequest) :
  cacheIsDown env ->
  let '(resp, err, fx) := PostEventsBulk json_Marshal env bulkData in
  handed fx = Events bulkData
  /\ err = SaveEvents json_Marshal (env_now env) (env_db env) (Events bulkData)
  /\ (Success resp = true <-> err = None).
Proof.
  intros [cerr Hd]. unfold PostEventsBulk.
  rewrite <- filterProcessedEvents_same.
  assert (Hf : EventBatcher_.filterProcessedEvents (env_redis env) (Events bulkData)
               = Events bulkData).
  { destruct (env_redis env) as [client ttl]. cbn in Hd. subst client. reflexivity. }
  rewrite Hf.
  destruct (SaveEvents _ _ _ _) as [err|]; cbn; rewrite app_nil_r;
    repeat split; try reflexivity; discriminate.
Qed.




End BulkAndWriter.

Section BulkAndWriterSamples.
Import database services notions.


Lemma PostEventsBulk_cache_down_witness :
  let e1 := samples.event "purchase" "user_1" in
  let e2 := samples.event "view" "user_2" in
  let env := {| env_redis := samples.cacheDown; env_db := samples.storeUp;
                env_now := samples.clock |} in
  handed (snd (PostEventsBulk samples.marshal env {| Events := [e1; e2] |}))
  = [e1; e2].
Proof.
  intros e1 e2 env.
  pose proof (PostEventsBulk_cache_down samples.marshal env {| Events := [e1; e2] |}
                ltac:(eexists; reflexivity)) as H.
  destruct (PostEventsBulk samples.marshal env {| Events := [e1; e2] |})
    as [[resp err] fx].
  apply H.
Defined.

End BulkAndWriterSamples.

(** ** The HTTP handlers *)

Section Handlers.
Import database services validations notions.

(** X19. [PostEvent] answers 200, 400 or 503 and never 500: 400 exactly
    when the body does not parse or the event fails validation, and then
    the queue is untouched; 503 exactly when the event is valid, not
    reported processed, and the queue cannot take it, with the
    "temporarily unavailable" body; 200 otherwise, with success = true. *)
Theorem PostEvent_statuses (now : Z) (r : ClickHouseRedis) (b : EventBatcher)
    (req : EventRequest) (perr : option error) :
  let '(status, body, b') := api.PostEvent now r b (req, perr) in
  let invalid := perr <> None \/ ValidateEventRequest now req <> None in
  let full := fst (IsEventProcessed r req) = false
              /\ sendReady (eventChan b) = false in
  (status = 400 <-> invalid)
  /\ (status = 503 <-> ~ invalid /\ full)
  /\ (status = 200 <-> ~ invalid /\ ~ full)
  /\ status <> 500
  /\ (status = 400 -> b' = b /\ er_Success body = false)
  /\ (status = 503 ->
      b' = b
      /\ body = {| er_Success := false;
                   er_Message :=
                     "Service temporarily unavailable, please try again later" |})
  /\ (status = 200 -> er_Success body = true).
Proof.
  unfold api.PostEvent, api.StatusOK, api.StatusServiceUnavailable,
    api.StatusInternalServerError, StatusBadRequest.
  destruct perr as [perr|].
  { cbv zeta. intuition (try discriminate; try congruence). }
  destruct (ValidateEventRequest now req) as [verr|] eqn:V.
  { cbv zeta. intuition (try discriminate; try congruence). }
  unfold PostEvents, Enqueue.
  destruct (IsEventProcessed r req) as [[|] cerr]; cbn [fst].
  { cbv zeta. intuition (try discriminate; try congruence). }
  destruct (sendReady (eventChan b)); cbn;
    rewrite ?bool_decide_eq_true_2 by reflexivity; cbn;
    intuition (try discriminate; try congruence).
Qed.

(** X20. [PostEventsBulk] (the handler) reports all or nothing: in
    every response the success and failure counts add up to the total
    and one of them is 0; the status is 200 exactly when success is
    true, and then every event of the body counts as a success; it is
    400 exactly when the body does not parse or fails validation, and
    then nothing is handed to the writer. *)
Theorem PostEventsBulk_all_or_nothing
    (json_Marshal : gmap string any -> string * option error)
    (now : nat -> Z) (env : Env) (events : option (list EventRequest))
    (perr : option error) :
  let '(status, body, fx) :=
    api.PostEventsBulk json_Marshal now env (events, perr) in
  SuccessCount body + FailureCount body = TotalCount body
  /\ (SuccessCount body = 0 \/ FailureCount body = 0)
  /\ (status = 200 \/ status = 400 \/ status = 500)
  /\ (status = 200 <-> Success body = true)
  /\ (status = 200 ->
      SuccessCount body = Z.of_nat (length (default [] events)))
  /\ (status = 400
      <-> perr <> None \/ ValidateBulkEventRequest now (Some events) <> None)
  /\ (status = 400 -> fx = []).
Proof.
  unfold api.PostEventsBulk, api.StatusOK, api.StatusInternalServerError,
    StatusBadRequest.
  destruct perr as [perr|].
  { cbn. intuition (try discriminate; try congruence; try lia). }
  destruct (ValidateBulkEventRequest now (Some events)) as [verr|].
  { cbn. intuition (try discriminate; try congruence; try lia). }
  unfold services.PostEventsBulk. cbn [Events env_redis env_db env_now].
  destruct (SaveEvents _ _ _ _) as [err|]; cbn;
    intuition (try discriminate; try congruence; try lia).
Qed.

Lemma ValidateMetricRequest_group_by nowFrom nowTo request g :
  gostrings.TrimSpace g <> ""%string ->
  ValidateMetricRequest nowFrom nowTo (withGroupBy (Some g) request)
  = ValidateMetricRequest nowFrom nowTo (withGroupBy None request).
Proof.
  intros Hg. apply blank_false in Hg.
  unfold ValidateMetricRequest, withGroupBy.
  cbn [mr_EventName mr_From mr_To mr_GroupBy]. now rewrite Hg.
Qed.

Lemma GetMetrics_group_by db request g :
  ~ allowed g ->
  services.GetMetrics db (withGroupBy (Some g) request)
  = services.GetMetrics db (withGroupBy None request).
Proof.
  intros Hg. unfold services.GetMetrics, database.GetMetrics.
  rewrite !metricsQuery_clauses.
  cbn [withGroupBy mr_GroupBy mr_EventName mr_From mr_To].
  now rewrite (not_allowed_bucketExpr g Hg).
Qed.

(** X21. At the HTTP boundary a [group_by] parameter outside the
    allowlist (and not blank) changes nothing: [GetMetrics] (the
    handler) answers with the status and the body it gives to the same
    request without [group_by]. *)
Theorem GetMetrics_handler_ignores_unknown_group_by
    (ParseInt : string -> Z * option error) (nowFrom nowTo : Z) (db : chDB)
    (query : string -> string) (g : string) :
  ~ allowed g -> gostrings.TrimSpace g <> ""%string ->
  api.GetMetrics ParseInt nowFrom nowTo db (withGroupByParam g query)
  = api.GetMetrics ParseInt nowFrom nowTo db (withGroupByParam "" query).
Proof.
  intros Ha Hb.
  assert (Hne : String.eqb g "" = false).
  { apply String.eqb_neq. intros ->. now apply Hb. }
  unfold api.GetMetrics, withGroupByParam. cbn [String.eqb Ascii.eqb Bool.eqb].
  rewrite Hne. cbn [negb].
  destruct (negb (String.eqb (query "from") "")).
  - destruct (ParseInt (query "from")) as [from [ferr|]]; [reflexivity|].
    destruct (negb (String.eqb (query "to") "")).
    + destruct (ParseInt (query "to")) as [to [terr|]]; [reflexivity|].
      match goal with |- context [ValidateMetricRequest _ _ ?r] =>
        change r with (withGroupBy (Some g) r) end.
      rewrite ValidateMetricRequest_group_by, GetMetrics_group_by by assumption.
      reflexivity.
    + match goal with |- context [ValidateMetricRequest _ _ ?r] =>
        change r with (withGroupBy (Some g) r) end.
      rewrite ValidateMetricRequest_group_by, GetMetrics_group_by by assumption.
      reflexivity.
  - destruct (negb (String.eqb (query "to") "")).
    + destruct (ParseInt (query "to")) as [to [terr|]]; [reflexivity|].
      match goal with |- context [ValidateMetricRequest _ _ ?r] =>
        change r with (withGroupBy (Some g) r) end.
      rewrite ValidateMetricRequest_group_by, GetMetrics_group_by by assumption.
      reflexivity.
    + match goal with |- context [ValidateMetricRequest _ _ ?r] =>
        change r with (withGroupBy (Some g) r) end.
      rewrite ValidateMetricRequest_group_by, GetMetrics_group_by by assumption.
      reflexivity.
Qed.

Lemma GetMetrics_handler_ignores_unknown_group_by_witness :
  let query := fun key : string =>
                 if String.eqb key "event_name" then "purchase"%string
                 else ""%string in
  let db := {| Exec := fun _ => None; Scan := fun _ => ([], None) |} in
  api.GetMetrics (fun _ => (0, None)) 1700000100 1700000100 db
    (withGroupByParam ";DROP TABLE events" query)
  = api.GetMetrics (fun _ => (0, None)) 1700000100 1700000100 db
      (withGroupByParam "" query).
Proof.
  intros query db.
  apply (GetMetrics_handler_ignores_unknown_group_by
           (fun _ => (0, None)) 1700000100 1700000100 db query
           ";DROP TABLE events").
  - unfold allowed. cbn. intuition discriminate.
  - vm_compute. discriminate.
Defined.

Lemma assoc_value (table : list (string * string)) (g v : string) :
  assoc table g = Some v -> In v (map snd table).
Proof.
  induction table as [|[k w] rest IH]; cbn [assoc map snd In]; [discriminate|].
  destruct (String.eqb g k); [intros [= ->]; now left | intros H; right; auto].
Qed.

(** X22. Injection safety of the planner: whatever the request holds,
    every text inlined into the statement (the clause templates and the
    [ch.Safe] bucket expression) is one of the planner's own literals or
    a bucket expression of the allowlist; the strings of the request
    only travel as bound arguments. *)
Theorem metricsQuery_inlines_only_planner_texts (request : MetricRequest)
    (text : string) :
  In text (inlinedText (metricsQuery request)) -> In text plannerTexts.
Proof.
  rewrite metricsQuery_clauses. unfold inlinedText, plannerTexts.
  cbn [table columns where_ group order].
  destruct (bucketExpr (mr_GroupBy request)) as [e|] eqn:B.
  - assert (He : In e (map snd allowlist)).
    { unfold bucketExpr in B. destruct (mr_GroupBy request) as [g|]; [|discriminate].
      now apply assoc_value in B. }
    destruct (mr_EventName request) as [name|];
      [destruct (String.eqb name "")|];
      destruct (mr_From request), (mr_To request);
      intros H; cbn [app flat_map inlined expr Query Args] in H;
      apply in_app_iff;
      repeat (destruct H as [<-|H]; [first [left; cbn; tauto | right; exact He]|]);
      contradiction.
  - destruct (mr_EventName request) as [name|];
      [destruct (String.eqb name "")|];
      destruct (mr_From request), (mr_To request);
      intros H; cbn [app flat_map inlined expr Query Args] in H;
      apply in_app_iff;
      repeat (destruct H as [<-|H]; [left; cbn; tauto|]);
      contradiction.
Qed.

Lemma metricsQuery_inlines_only_planner_texts_witness :
  In "toString(toStartOfDay(timestamp))"%string plannerTexts.
Proof.
  apply (metricsQuery_inlines_only_planner_texts
           {| mr_EventName := Some "x' OR 1=1 --"%string; mr_From := None;
              mr_To := None; mr_GroupBy := Some "day"%string |}).
  cbn. tauto.
Defined.

End Handlers.
